(** * netmeta: state tracking and rule-based remediation

    A shallow embedding of the Go packages [mpls] (label-stack validator),
    [ospf] (topology parser), [bgp] (peer monitor) and [auto] (remediation
    engine), with the properties of their specification stated over it.

    Conventions.
    - Go's [int64] is a [Z] with the wrap-around of the arithmetic written
      out ([Go.wrap64]); [uint8], [uint16] and [uint32] values, which are
      only compared and printed here, are [N].
    - A Go [error] is [option string]: [None] is [nil], [Some msg] carries
      the text that [err.Error()] would return.
    - [fmt.Sprintf] and [fmt.Errorf] are written as string concatenation,
      [%d] through [pretty].
    - Maps are [gmap]; a [*PeerState] stored in the peer map is identified
      with its key, because the map never rebinds a key while a pointer
      obtained from it is in use in the sequential runs modelled here.
    - Go leaves the order of [range] over a map unspecified; the model
      ranges in the order of [map_to_list], and the proofs use of that
      order only that it lists every key once.
    - Locks are left out: every function runs from start to end without
      interleaving. *)

From Stdlib Require Import ZArith Lia.
From stdpp Require Import base gmap strings list pretty.

Open Scope Z_scope.

(** ** Go primitives *)

Module Go.

Definition MaxInt64 : Z := 2 ^ 63 - 1.
Definition MinInt64 : Z := - 2 ^ 63.

(** Two's complement reduction of an integer to the [int64] range. *)
Definition wrap64 (z : Z) : Z := (z + 2 ^ 63) `mod` 2 ^ 64 - 2 ^ 63.

(** [x++] on an [int64]. *)
Definition int64_inc (x : Z) : Z := wrap64 (x + 1).

(** [x * y] on [int64] operands. *)
Definition int64_mul (x y : Z) : Z := wrap64 (x * y).

(** [time.Time] as the number of nanoseconds elapsed since the zero
    instant (January 1, year 1, 00:00:00 UTC). *)
Definition Time := Z.
Definition zeroTime : Time := 0.
Definition IsZero (t : Time) : bool := t =? 0.

(** [time.Second] as a [time.Duration] (an [int64] of nanoseconds). *)
Definition Second : Z := 1000000000.

(** [t.Sub(u)]: the difference, saturated to the [Duration] range. *)
Definition Sub (t u : Time) : Z :=
  let d := t - u in
  if d <? MinInt64 then MinInt64
  else if MaxInt64 <? d then MaxInt64
  else d.

(** A Go [error] value. *)
Definition error := option string.

Definition is_nil (err : error) : bool :=
  match err with None => true | Some _ => false end.

(** [strings.Contains(s, sub)]. *)
Definition Contains (s sub : string) : bool :=
  match String.index 0 sub s with Some _ => true | None => false end.

End Go.

(** ** gopacket: the part of the decoded packet the validator reads *)

Module layers.

(** [layers.MPLS]: one decoded label-stack entry. *)
Record MPLS := {
  Label : N;             (* uint32 *)
  TrafficClass : N;      (* uint8 *)
  BottomOfStack : bool;
  TTL : N                (* uint8 *)
}.

End layers.

Module gopacket.

(** A decoded layer: either an MPLS entry or a layer of another type,
    of which only the name of the type matters. *)
Inductive Layer :=
| LayerMPLS (m : layers.MPLS)
| LayerOther (layerType : string).

(** A decoded packet is the sequence of its layers, outermost first. *)
Definition Packet := list Layer.

(** [packet.Layer(layers.LayerTypeMPLS)]: the FIRST layer of the packet
    whose type is MPLS, or [nil]. The type assertion to a pointer to
    [layers.MPLS] that follows each call in the source succeeds on
    every layer of that type, so the result is given as the entry. *)
Fixpoint Layer_MPLS (packet : Packet) : option layers.MPLS :=
  match packet with
  | [] => None
  | LayerMPLS m :: _ => Some m
  | LayerOther _ :: rest => Layer_MPLS rest
  end.

(** The label stack a packet carries: all its MPLS entries in order. *)
Fixpoint mpls_entries (packet : Packet) : list layers.MPLS :=
  match packet with
  | [] => []
  | LayerMPLS m :: rest => m :: mpls_entries rest
  | LayerOther _ :: rest => mpls_entries rest
  end.

End gopacket.

(** ** Package mpls: the label-stack validator *)

Module mpls.

Record Label := {
  Value : N;  (* uint32 *)
  BoS : bool;
  TTL : N;    (* uint8 *)
  TC : N      (* uint8 *)
}.

Record LabelStack := {
  Labels : list Label;
  Valid : bool;
  Error : string
}.

(** The validator's state is its corruption counter (an [int64]). *)
Record Validator := { corruptionEvents : Z }.

Definition NewValidator : Validator := {| corruptionEvents := 0 |}.

Definition recordCorruption (v : Validator) : Validator :=
  {| corruptionEvents := Go.int64_inc (corruptionEvents v) |}.

Definition GetCorruptionCount (v : Validator) : Z := corruptionEvents v.

Definition ResetCorruptionCount (v : Validator) : Validator :=
  {| corruptionEvents := 0 |}.

(** The label built from the current entry at the top of the loop. *)
Definition label_of (current : layers.MPLS) : Label :=
  {| Value := layers.Label current;
     BoS := layers.BottomOfStack current;
     TTL := layers.TTL current;
     TC := layers.TrafficClass current |}.

Definition out_of_range (value : N) : bool :=
  ((value <? 16) || (1048575 <? value))%N.

(** What [ValidatePacket] returns: the stack pointer (nil when the
    packet has no MPLS layer) and the error. *)
Definition Result : Type := option LabelStack * Go.error.

(** The loop [for current != nil { ... }] of [ValidatePacket]. Each unit
    of fuel pays for one iteration; [None] means the fuel ran out before
    the loop was left. *)
Fixpoint ValidatePacket_loop (fuel : nat) (packet : gopacket.Packet)
    (current : option layers.MPLS) (stack : LabelStack) (v : Validator)
    : option (Result * Validator) :=
  match fuel with
  | O => None
  | S fuel' =>
    match current with
    | None => Some ((Some stack, None), v)
    | Some cur =>
      let label := label_of cur in
      if out_of_range (Value label) then
        let stack := {| Labels := Labels stack; Valid := false;
                        Error := "invalid label value: " +:+ pretty (Value label)
                                 +:+ " (must be 16-1048575)" |} in
        Some ((Some stack,
               Some ("invalid label value: " +:+ pretty (Value label))),
              recordCorruption v)
      else if (TTL label =? 0)%N then
        let stack := {| Labels := Labels stack; Valid := false;
                        Error := "TTL expired" |} in
        Some ((Some stack, Some "TTL expired"), recordCorruption v)
      else
        let stack := {| Labels := Labels stack ++ [label];
                        Valid := Valid stack; Error := Error stack |} in
        if BoS label then Some ((Some stack, None), v)
        else
          (* nextLayer := packet.Layer(layers.LayerTypeMPLS) *)
          match gopacket.Layer_MPLS packet with
          | None => Some ((Some stack, None), v)
          | Some next => ValidatePacket_loop fuel' packet (Some next) stack v
          end
    end
  end.

Definition ValidatePacket (fuel : nat) (v : Validator)
    (packet : gopacket.Packet) : option (Result * Validator) :=
  match gopacket.Layer_MPLS packet with
  | None => Some ((None, Some "no MPLS layer found"), v)
  | Some mpls =>
    let stack := {| Labels := []; Valid := true; Error := "" |} in
    ValidatePacket_loop fuel packet (Some mpls) stack v
  end.

(** The loop [for i, label := range labels] of [ValidateLabelStack],
    entered at index [i]. *)
Fixpoint ValidateLabelStack_range (i : nat) (labels : list N)
    (v : Validator) : Go.error * Validator :=
  match labels with
  | [] => (None, v)
  | label :: rest =>
    if out_of_range label then
      (Some ("invalid label value at position " +:+ pretty i +:+ ": "
             +:+ pretty label +:+ " (must be 16-1048575)"),
       recordCorruption v)
    else ValidateLabelStack_range (S i) rest v
  end.

Definition ValidateLabelStack (v : Validator) (labels : list N)
    : Go.error * Validator :=
  if (length labels =? 0)%nat then (Some "empty label stack", v)
  else ValidateLabelStack_range 0 labels v.

(** The specification's reading of a walk over the stack: every entry
    visited once, outermost first, up to and including the first
    bottom-of-stack entry. *)
Fixpoint upto_bottom (entries : list layers.MPLS) : list layers.MPLS :=
  match entries with
  | [] => []
  | e :: rest =>
    if layers.BottomOfStack e then [e] else e :: upto_bottom rest
  end.

Definition label_ok (l : Label) : Prop :=
  (16 ≤ Value l ≤ 1048575)%N ∧ (0 < TTL l)%N.

(** A result of the loop, read against the state it was entered in. *)
Definition loop_post (stack0 : LabelStack) (v0 : Validator)
    (r : Result * Validator) : Prop :=
  match r with
  | ((Some stack, None), v) =>
    Valid stack = Valid stack0 ∧ v = v0
    ∧ ∃ more, Labels stack = Labels stack0 ++ more ∧ Forall label_ok more
  | ((Some stack, Some _), v) =>
    Valid stack = false ∧ v = recordCorruption v0
    ∧ ∃ more, Labels stack = Labels stack0 ++ more ∧ Forall label_ok more
  | ((None, _), _) => False
  end.

End mpls.

(** ** Package ospf: the topology parser *)

Module ospf.

Abbreviation RouterID := N (only parsing).  (* uint32 *)

Record Link := {
  RemoteRouterID : RouterID;
  Cost : N;  (* uint16 *)
  State : string
}.

(** [Topology.Routers]; the mutex is not part of the sequential model. *)
Abbreviation Routers := (gmap RouterID (list Link)) (only parsing).

Inductive OSPFType :=
| OSPFHello
| OSPFDatabaseDescription
| OSPFLinkStateRequest
| OSPFLinkStateUpdate
| OSPFLinkStateAcknowledgment
| OSPFTypeUnknown (code : N).

(** One advertisement of a link-state update; only its advertising
    router is read. *)
Record LSA := { AdvertisingRouter : N }.

Record LSUpdate := { LSAs : list LSA }.

(** The decoded OSPF layer handed to [processOSPFPacket]: [Hello] and
    [LSU] are pointers, nil when the packet has no such body. *)
Record OSPF := {
  Type_ : OSPFType;
  OSPF_RouterID : N;
  Hello : option unit;
  LSU : option LSUpdate
}.

Definition NewParser : Routers := ∅.

(** [if _, exists := Routers[routerID]; !exists { Routers[routerID] = []Link{} }] *)
Definition ensureRouter (routerID : RouterID) (t : Routers) : Routers :=
  match t !! routerID with
  | Some _ => t
  | None => <[routerID := []]> t
  end.

(** The inner loop that looks for a link with the same remote router. *)
Fixpoint found_in (links : list Link) (remote : RouterID) : bool :=
  match links with
  | [] => false
  | l :: rest =>
    if (RemoteRouterID l =? remote)%N then true else found_in rest remote
  end.

(** The body of [for _, lsa := range lsu.LSAs]. Reading an absent key of
    a Go map yields the nil slice, hence the [default]. *)
Definition mergeLSA (routerID : RouterID) (t : Routers) (lsa : LSA)
    : Routers :=
  let link := {| RemoteRouterID := AdvertisingRouter lsa;
                 Cost := 100;
                 State := "Up" |} in
  let t := ensureRouter routerID t in
  let links := default [] (t !! routerID) in
  if found_in links (RemoteRouterID link) then t
  else <[routerID := links ++ [link]]> t.

Definition processOSPFPacket (ospf : OSPF) (t : Routers) : Routers :=
  match Type_ ospf with
  | OSPFHello =>
    match Hello ospf with
    | Some _ => ensureRouter (OSPF_RouterID ospf) t
    | None => t
    end
  | OSPFDatabaseDescription => ensureRouter (OSPF_RouterID ospf) t
  | OSPFLinkStateRequest => ensureRouter (OSPF_RouterID ospf) t
  | OSPFLinkStateUpdate =>
    match LSU ospf with
    | Some lsu => foldl (mergeLSA (OSPF_RouterID ospf)) t (LSAs lsu)
    | None => t
    end
  | OSPFLinkStateAcknowledgment => ensureRouter (OSPF_RouterID ospf) t
  | OSPFTypeUnknown _ => t
  end.

(** [GetTopology] copies every link slice; values have no identity here,
    so the copy is the map itself. *)
Definition GetTopology (t : Routers) : Routers := t.

(** The topologies the parser can hold: the empty one of [NewParser]
    and whatever [processOSPFPacket] makes of one it can hold. *)
Inductive reachable : Routers → Prop :=
| reachable_new : reachable NewParser
| reachable_process ospf t :
    reachable t → reachable (processOSPFPacket ospf t).

(** A link-state update of router [routerID] carrying one advertisement
    per listed advertising router. *)
Definition lsu_packet (routerID : N) (advertisers : list N) : OSPF :=
  {| Type_ := OSPFLinkStateUpdate;
     OSPF_RouterID := routerID;
     Hello := None;
     LSU := Some {| LSAs := (λ a, {| AdvertisingRouter := a |}) <$> advertisers |} |}.

Definition links_of (t : Routers) (routerID : RouterID) : list Link :=
  default [] (t !! routerID).

(** The link an advertisement of [remote] stands for. *)
Definition new_link (remote : RouterID) : Link :=
  {| RemoteRouterID := remote; Cost := 100; State := "Up" |}.

(** What one advertisement does to the link slice of its router. *)
Definition add_link (links : list Link) (remote : RouterID) : list Link :=
  if found_in links remote then links else links ++ [new_link remote].

(** No two links of a router have the same remote router. *)
Definition deduplicated (t : Routers) : Prop :=
  ∀ routerID links,
    t !! routerID = Some links → NoDup (RemoteRouterID <$> links).

End ospf.

(** ** The collaborators: GoBGP's server and the clock *)

Module api.

(** [api.PeerState_SessionState] with the names [String()] prints. *)
Inductive SessionState :=
| UNKNOWN | IDLE | ACTIVE | CONNECT | OPENSENT | OPENCONFIRM | ESTABLISHED.

Definition SessionState_String (s : SessionState) : string :=
  match s with
  | UNKNOWN => "UNKNOWN"
  | IDLE => "IDLE"
  | ACTIVE => "ACTIVE"
  | CONNECT => "CONNECT"
  | OPENSENT => "OPENSENT"
  | OPENCONFIRM => "OPENCONFIRM"
  | ESTABLISHED => "ESTABLISHED"
  end.

Definition is_ESTABLISHED (s : SessionState) : bool :=
  match s with ESTABLISHED => true | _ => false end.

(** What [updatePeerStates] reads of a [GetPeer] response:
    [resp.Peer.State.SessionState] and
    [resp.Peer.State.AdjTable.Advertised]. *)
Record Peer := {
  SessionState_ : SessionState;
  Advertised : N
}.

(** A path of the global table. *)
Record Path := {
  Family : N * N;  (* Afi, Safi *)
  Nlri : string;
  Pattrs : list string
}.

End api.

(** The session engine and the clock are outside the repository. They are
    an arbitrary state [Env] with one transition per call the code makes;
    every function below is parametric in them. [server_ListPath] yields
    the paths that [stream.Recv()] delivers before its first error. *)
Class Externals (Env : Type) := {
  time_Now : Env → Go.Time * Env;
  server_AddPeer : string → N → N → Env → Go.error * Env;
  server_GetPeer : string → Env → (api.Peer + string) * Env;
  server_ListPath : Env → (list api.Path + string) * Env;
  server_DeletePath : api.Path → Env → Go.error * Env
}.

(** ** Package bgp: the peer monitor *)

Module bgp.

Record PeerState := {
  Address : string;
  ASN : N;              (* uint32 *)
  State : string;
  PrefixCount : Z;      (* int64 *)
  FlapCount : Z;        (* int64 *)
  LastFlapTime : Go.Time;
  Established : bool
}.

Definition setFlap (count : Z) (t : Go.Time) (p : PeerState) : PeerState :=
  {| Address := Address p; ASN := ASN p; State := State p;
     PrefixCount := PrefixCount p; FlapCount := count;
     LastFlapTime := t; Established := Established p |}.

Definition setFlapCount (count : Z) (p : PeerState) : PeerState :=
  setFlap count (LastFlapTime p) p.

Definition setSession (state : string) (established : bool)
    (prefixes : Z) (p : PeerState) : PeerState :=
  {| Address := Address p; ASN := ASN p; State := state;
     PrefixCount := prefixes; FlapCount := FlapCount p;
     LastFlapTime := LastFlapTime p; Established := established |}.

End bgp.

(** ** Package auto: the remediation events *)

Module auto.

Record RemediationEvent := {
  Timestamp : Go.Time;
  Type_ : string;
  Target : string;
  Reason : string;
  Action : string;
  Success : bool
}.

Definition setSuccess (b : bool) (e : RemediationEvent) : RemediationEvent :=
  {| Timestamp := Timestamp e; Type_ := Type_ e; Target := Target e;
     Reason := Reason e; Action := Action e; Success := b |}.

End auto.

Module config.

Record AutoConfig := {
  Enabled : bool;
  FlapThreshold : Z;   (* int *)
  FlapWindowSec : Z    (* int *)
}.

End config.

(** ** The state of a run and its monad *)

(** One sequential run threads the collaborators' state, the monitor's
    peer map and the engine's event ledger. *)
Record World (Env : Type) := mkWorld {
  env : Env;
  peers : gmap string bgp.PeerState;
  events : list auto.RemediationEvent
}.
Arguments mkWorld {Env}.
Arguments env {Env}.
Arguments peers {Env}.
Arguments events {Env}.

Definition M (Env A : Type) : Type := World Env → A * World Env.

#[global] Instance M_ret {Env} : MRet (M Env) := λ A x w, (x, w).
#[global] Instance M_bind {Env} : MBind (M Env) :=
  λ A B f m w, let '(x, w') := m w in f x w'.

(** A call to a collaborator. *)
Definition call {Env A} (f : Env → A * Env) : M Env A :=
  λ w, let '(x, e) := f (env w) in (x, mkWorld e (peers w) (events w)).

Definition get_peers {Env} : M Env (gmap string bgp.PeerState) :=
  λ w, (peers w, w).

Definition set_peers {Env} (f : gmap string bgp.PeerState → gmap string bgp.PeerState)
    : M Env unit :=
  λ w, (tt, mkWorld (env w) (f (peers w)) (events w)).

Definition set_events {Env}
    (f : list auto.RemediationEvent → list auto.RemediationEvent) : M Env unit :=
  λ w, (tt, mkWorld (env w) (peers w) (f (events w))).

(** [for _, x := range l { body x }] *)
Fixpoint for_range {Env A} (l : list A) (body : A → M Env unit) : M Env unit :=
  match l with
  | [] => mret tt
  | x :: rest => body x ;; for_range rest body
  end.

(** Unfolding of the monad's operations, for the proofs. *)
Ltac run_M :=
  unfold mbind, M_bind, mret, M_ret, call, get_peers, set_peers, set_events;
  cbn [env peers events fst snd].

Module Monitor.
Section Monitor.
Context {Env : Type} {ext : Externals Env}.
Import bgp.

Definition AddPeer (address : string) (asn : N) (port : N) : M Env Go.error :=
  let peer := {| Address := address; ASN := asn; State := "Idle";
                 PrefixCount := 0; FlapCount := 0;
                 LastFlapTime := Go.zeroTime; Established := false |} in
  set_peers (insert address peer) ;;
  err ← call (server_AddPeer address asn port);
  match err with
  | Some err => mret (Some ("failed to add peer " +:+ address +:+ ": " +:+ err))
  | None => mret None
  end.

Definition GetPeer (address : string) : M Env (option PeerState * Go.error) :=
  ps ← get_peers;
  match ps !! address with
  | None => mret (None, Some ("peer " +:+ address +:+ " not found"))
  | Some peer => mret (Some peer, None)
  end.

(** The snapshot is a slice of copies, listed in the order the map is
    ranged over. *)
Definition GetAllPeers : M Env (list PeerState) :=
  ps ← get_peers;
  mret ((map_to_list ps).*2).

(** The body of the loop of [updatePeerStates] for one key of the map;
    [peer] is the entry the key points to. *)
Definition updatePeerState (address : string) : M Env unit :=
  resp ← call (server_GetPeer address);
  match resp with
  | inr _ => mret tt
  | inl resp =>
    ps ← get_peers;
    match ps !! address with
    | None => mret tt
    | Some peer =>
      let wasEstablished := Established peer in
      let peer :=
        if api.is_ESTABLISHED (api.SessionState_ resp)
        then setSession "Established" true
               (Go.wrap64 (Z.of_N (api.Advertised resp))) peer
        else setSession (api.SessionState_String (api.SessionState_ resp))
               false (PrefixCount peer) peer in
      peer ← (if wasEstablished && negb (Established peer)
              then now ← call time_Now;
                   mret (setFlap (Go.int64_inc (FlapCount peer)) now peer)
              else mret peer);
      set_peers (insert address peer)
    end
  end.

Definition updatePeerStates : M Env unit :=
  ps ← get_peers;
  for_range (map_to_list ps).*1 updatePeerState.

(** The body of the loop over the stream: the path is withdrawn, and a
    failed [DeletePath] is passed over ([continue]). *)
Definition withdrawPath (path : api.Path) : M Env unit :=
  let withdraw := {| api.Family := api.Family path;
                     api.Nlri := api.Nlri path;
                     api.Pattrs := [] |} in
  err ← call (server_DeletePath withdraw);
  match err with
  | Some _ => mret tt
  | None => mret tt
  end.

Definition WithdrawAllPrefixes (address : string) : M Env Go.error :=
  ps ← get_peers;
  match ps !! address with
  | None => mret (Some ("peer " +:+ address +:+ " not found"))
  | Some _ =>
    r ← call server_ListPath;
    match r with
    | inr err => mret (Some ("failed to list paths: " +:+ err))
    | inl stream =>
      for_range stream withdrawPath ;;
      set_peers (alter (setFlapCount 0) address) ;;
      mret None
    end
  end.

(** The request [WithdrawAllPrefixes] sends for a path of the stream. *)
Definition withdrawal (path : api.Path) : api.Path :=
  {| api.Family := api.Family path; api.Nlri := api.Nlri path;
     api.Pattrs := [] |}.

(** The collaborators after a [DeletePath] for every path of the
    stream, in order. *)
Definition delete_all (stream : list api.Path) (e : Env) : Env :=
  foldl (λ e path, (server_DeletePath (withdrawal path) e).2) e stream.

(** The peer after its turn in a poll that got the answer [resp], the
    clock reading [now] when the turn counts a flap. *)
Definition polled (resp : api.Peer) (now : Go.Time) (peer : PeerState)
    : PeerState :=
  if api.is_ESTABLISHED (api.SessionState_ resp)
  then setSession "Established" true
         (Go.wrap64 (Z.of_N (api.Advertised resp))) peer
  else
    let peer' := setSession (api.SessionState_String (api.SessionState_ resp))
                   false (PrefixCount peer) peer in
    if Established peer
    then setFlap (Go.int64_inc (FlapCount peer)) now peer'
    else peer'.

(** The entry [AddPeer] files. *)
Definition fresh_peer (address : string) (asn : N) : PeerState :=
  {| Address := address; ASN := asn; State := "Idle"; PrefixCount := 0;
     FlapCount := 0; LastFlapTime := Go.zeroTime; Established := false |}.

End Monitor.
End Monitor.

(** ** Package auto: the remediation engine *)

Module Engine.

Import auto.

(** [recordEvent] on the ledger itself: append, then keep the last
    1000 entries when there are more. *)
Definition record (event : RemediationEvent) (events : list RemediationEvent)
    : list RemediationEvent :=
  let events := events ++ [event] in
  if (1000 <? length events)%nat
  then drop (length events - 1000) events
  else events.

(** Recording a sequence of events, one call after the other. *)
Definition record_all (es l : list RemediationEvent) : list RemediationEvent :=
  foldl (λ l e, record e l) l es.

(** The events the engine records. *)
Definition flap_event (now : Go.Time) (peerAddress : string) (success : bool)
    : RemediationEvent :=
  {| Timestamp := now; Type_ := "bgp_flap"; Target := peerAddress;
     Reason := "flap"; Action := "withdraw_all_prefixes"; Success := success |}.

Definition manual_event (now : Go.Time) (peer reason : string) (success : bool)
    : RemediationEvent :=
  {| Timestamp := now; Type_ := "manual"; Target := peer;
     Reason := reason; Action := "manual_remediation"; Success := success |}.

Definition rpki_event (now : Go.Time) (prefix : string) : RemediationEvent :=
  {| Timestamp := now; Type_ := "rpki_invalid"; Target := prefix;
     Reason := "rpki"; Action := "withdraw_prefix"; Success := true |}.

Section Engine.
Context {Env : Type} {ext : Externals Env}.

(** The world once the clock has been read. *)
Definition after_clock (w : World Env) : World Env :=
  mkWorld (time_Now (env w)).2 (peers w) (events w).

Definition recordEvent (event : RemediationEvent) : M Env unit :=
  set_events (record event).

(** Every peer is as it is in [ps], or as it is there with its flap
    count reset. *)
Definition reset_only (ps : gmap string bgp.PeerState) (w : World Env) : Prop :=
  ∀ address,
    peers w !! address = ps !! address
    ∨ peers w !! address = bgp.setFlapCount 0 <$> ps !! address.

Definition remediateFlap (peerAddress : string) : M Env unit :=
  now ← call time_Now;
  let event := {| Timestamp := now;
                  Type_ := "bgp_flap";
                  Target := peerAddress;
                  Reason := "flap";
                  Action := "withdraw_all_prefixes";
                  Success := false |} in
  err ← Monitor.WithdrawAllPrefixes peerAddress;
  match err with
  | Some _ => recordEvent (setSuccess false event)
  | None => recordEvent (setSuccess true event)
  end.

(** The test of the loop of [checkAndRemediate] on one snapshot entry. *)
Definition flapping (cfg : config.AutoConfig) (now : Go.Time) (window : Z)
    (peer : bgp.PeerState) : bool :=
  (config.FlapThreshold cfg <? bgp.FlapCount peer)
  && (negb (Go.IsZero (bgp.LastFlapTime peer))
      && (Go.Sub now (bgp.LastFlapTime peer) <? window)).

Definition checkPeer (cfg : config.AutoConfig) (now : Go.Time) (window : Z)
    (peer : bgp.PeerState) : M Env unit :=
  if flapping cfg now window peer
  then remediateFlap (bgp.Address peer)
  else mret tt.

(** [time.Duration(cfg.Auto.FlapWindowSec) * time.Second] *)
Definition window_of (cfg : config.AutoConfig) : Z :=
  Go.int64_mul (config.FlapWindowSec cfg) Go.Second.

Definition checkAndRemediate (cfg : config.AutoConfig) : M Env unit :=
  peers ← Monitor.GetAllPeers;
  now ← call time_Now;
  let window := window_of cfg in
  for_range peers (checkPeer cfg now window).

(** One tick of the loop of [Start], which runs only when the feature is
    enabled. *)
Definition tick (cfg : config.AutoConfig) : M Env unit :=
  if config.Enabled cfg then checkAndRemediate cfg else mret tt.

Definition RemediateRPKI (prefix : string) : M Env Go.error :=
  now ← call time_Now;
  let event := {| Timestamp := now;
                  Type_ := "rpki_invalid";
                  Target := prefix;
                  Reason := "rpki";
                  Action := "withdraw_prefix";
                  Success := false |} in
  recordEvent (setSuccess true event) ;;
  mret None.

Definition RemediateOSPFAdjacency (interfaceName : string) : M Env Go.error :=
  now ← call time_Now;
  let event := {| Timestamp := now;
                  Type_ := "ospf_adjacency";
                  Target := interfaceName;
                  Reason := "adjacency_down";
                  Action := "restart_interface";
                  Success := false |} in
  recordEvent (setSuccess true event) ;;
  mret None.

Definition RemediateManual (peer prefix reason : string) : M Env Go.error :=
  now ← call time_Now;
  let event := {| Timestamp := now;
                  Type_ := "manual";
                  Target := peer;
                  Reason := reason;
                  Action := "manual_remediation";
                  Success := false |} in
  err ← (if bool_decide (peer ≠ "")
         then Monitor.WithdrawAllPrefixes peer
         else mret None);
  match err with
  | Some err =>
    recordEvent (setSuccess false event) ;;
    mret (Some ("failed to remediate peer " +:+ peer +:+ ": " +:+ err))
  | None =>
    err ← (if bool_decide (prefix ≠ "")
           then RemediateRPKI prefix
           else mret None);
    match err with
    | Some err =>
      recordEvent (setSuccess false event) ;;
      mret (Some ("failed to remediate prefix " +:+ prefix +:+ ": " +:+ err))
    | None =>
      recordEvent (setSuccess true event) ;;
      mret None
    end
  end.

Definition GetEvents (limit : Z) : M Env (list RemediationEvent) :=
  λ w,
    let n := Z.of_nat (length (events w)) in
    let limit := if (limit <=? 0) || (n <? limit) then n else limit in
    (drop (Z.to_nat (n - limit)) (events w), w).

(** The loop of [GetRemediationCount], with the [int64] counter. *)
Definition count_matching (reason : string) (events : list RemediationEvent) : Z :=
  foldl (λ count event,
           if bool_decide (Reason event = reason) && Success event
           then Go.int64_inc count else count) 0 events.

Definition GetRemediationCount (reason : string) : M Env Z :=
  λ w, (count_matching reason (events w), w).

End Engine.
End Engine.

(** ** Runs of the registry's public operations *)

Module Registry.

Inductive op :=
| addPeer (address : string) (asn port : N)
| refreshFromSession
| withdrawAllPrefixes (address : string)
| getPeer (address : string)
| getAllPeers.

Section Registry.
Context {Env : Type} {ext : Externals Env}.

Definition run (o : op) : M Env unit :=
  match o with
  | addPeer address asn port => Monitor.AddPeer address asn port ;; mret tt
  | refreshFromSession => Monitor.updatePeerStates
  | withdrawAllPrefixes address => Monitor.WithdrawAllPrefixes address ;; mret tt
  | getPeer address => Monitor.GetPeer address ;; mret tt
  | getAllPeers => Monitor.GetAllPeers ;; mret tt
  end.

(** [NewMonitor]: no peer, whatever the collaborators' state. *)
Definition initial (w : World Env) : Prop := peers w = ∅.

(** The worlds a registry goes through from [NewMonitor] on. *)
Inductive reachable : World Env → Prop :=
| reachable_initial w : initial w → reachable w
| reachable_run o w : reachable w → reachable (run o w).2.

(** [n] successive polls. *)
Fixpoint polls (n : nat) (w : World Env) : World Env :=
  match n with
  | O => w
  | S n' => polls n' (Monitor.updatePeerStates w).2
  end.

(** Whether the registry holds the peer as established. *)
Definition established_at (address : string) (w : World Env) : bool :=
  match peers w !! address with
  | Some peer => bgp.Established peer
  | None => false
  end.

(** The number of polls, among [n] successive ones, that find the peer
    established and leave it not established. *)
Fixpoint transitions (address : string) (n : nat) (w : World Env) : nat :=
  match n with
  | O => O
  | S n' =>
    let w' := (Monitor.updatePeerStates w).2 in
    ((if established_at address w && negb (established_at address w')
      then 1 else 0)
     + transitions address n' w')%nat
  end.

(** The state label of a peer agrees with its established flag. *)
Definition labelled (peer : bgp.PeerState) : Prop :=
  bgp.Established peer = true ↔ bgp.State peer = "Established".

(** Every entry is filed under its own address, and its flap count is
    an [int64]. *)
Definition well_keyed (w : World Env) : Prop :=
  ∀ address peer,
    peers w !! address = Some peer →
    bgp.Address peer = address
    ∧ Go.MinInt64 ≤ bgp.FlapCount peer ≤ Go.MaxInt64.

End Registry.
End Registry.

(** ** A scripted collaborator, for concrete runs *)

Module Sim.

(** The clock advances by one nanosecond per reading; [GetPeer] answers
    with the next session state of the script (an error once the script
    is used up); [ListPath] fails or streams the table; [DeletePath]
    fails or removes the path from the table. *)
Record Env := mkEnv {
  clock : Go.Time;
  script : list api.SessionState;
  table : list api.Path;
  listFails : bool;
  deleteFails : bool
}.

#[global] Instance ext : Externals Env := {|
  time_Now e :=
    (clock e, mkEnv (clock e + 1) (script e) (table e) (listFails e) (deleteFails e));
  server_AddPeer _ _ _ e := (None, e);
  server_GetPeer _ e :=
    match script e with
    | [] => (inr "no such peer", e)
    | s :: rest =>
      (inl {| api.SessionState_ := s; api.Advertised := 7 |},
       mkEnv (clock e) rest (table e) (listFails e) (deleteFails e))
    end;
  server_ListPath e :=
    if listFails e then (inr "table unavailable", e) else (inl (table e), e);
  server_DeletePath path e :=
    if deleteFails e then (Some "path not found", e)
    else (None,
          mkEnv (clock e) (script e)
            (filter (λ p, api.Nlri p ≠ api.Nlri path) (table e))
            (listFails e) (deleteFails e))
|}.

Definition path (nlri : string) : api.Path :=
  {| api.Family := (1%N, 1%N); api.Nlri := nlri; api.Pattrs := ["origin"] |}.

(** A peer as the monitor holds it after some flaps. *)
Definition peer (address : string) (flaps : Z) (last : Go.Time)
    (established : bool) : bgp.PeerState :=
  {| bgp.Address := address; bgp.ASN := 65001; bgp.State := "IDLE";
     bgp.PrefixCount := 7; bgp.FlapCount := flaps;
     bgp.LastFlapTime := last; bgp.Established := established |}.

Definition event (n : Z) : auto.RemediationEvent :=
  {| auto.Timestamp := n; auto.Type_ := "manual"; auto.Target := "10.0.0.1";
     auto.Reason := "test"; auto.Action := "manual_remediation";
     auto.Success := true |}.

(** A wall-clock reading of the 2020s, in nanoseconds. *)
Definition noon : Go.Time := 63900000000 * Go.Second.

Definition cfg : config.AutoConfig :=
  {| config.Enabled := true; config.FlapThreshold := 3;
     config.FlapWindowSec := 300 |}.

(** The packet on which the walk goes wrong: label 100, not the bottom of
    the stack, over label 200, the bottom; both valid. *)
Definition two_label_packet : gopacket.Packet :=
  [gopacket.LayerOther "Ethernet";
   gopacket.LayerMPLS {| layers.Label := 100; layers.TrafficClass := 0;
                         layers.BottomOfStack := false; layers.TTL := 64 |};
   gopacket.LayerMPLS {| layers.Label := 200; layers.TrafficClass := 0;
                         layers.BottomOfStack := true; layers.TTL := 64 |}].

(** The run of the registry used below: a peer is added, found
    established by a first poll and idle by a second one. *)
Definition flapped_once : World Env :=
  let w0 := mkWorld (mkEnv noon [api.ESTABLISHED; api.IDLE] [] false false)
              ∅ [] in
  let w1 := (Registry.run (Registry.addPeer "10.0.0.1" 65001 179) w0).2 in
  let w2 := (Registry.run Registry.refreshFromSession w1).2 in
  (Registry.run Registry.refreshFromSession w2).2.

(** A registry with one peer that flapped 4 times, the last time 10
    seconds before the clock reads [noon]. *)
Definition flapping_world : World Env :=
  mkWorld (mkEnv noon [] [path "203.0.113.0/24"] false false)
    {["10.0.0.1" := peer "10.0.0.1" 4 (noon - 10 * Go.Second) false]} [].

End Sim.

(** ** Further code of the packages *)

(** Successive calls of [ValidateLabelStack] on one validator. *)
Module Validation.

Definition validate_all (stacks : list (list N)) (v : mpls.Validator)
    : mpls.Validator :=
  foldl (λ v labels, (mpls.ValidateLabelStack v labels).2) v stacks.

(** Whether a list of label values holds one out of range. *)
Definition corrupt (labels : list N) : bool := existsb mpls.out_of_range labels.

End Validation.

(** The capture loop of the OSPF parser. *)
Module Parser.

(** What a capture delivers for a packet: its OSPF layer, or nothing when
    [packet.Layer(layers.LayerTypeOSPF)] is nil or is no [layers.OSPF]. *)
Abbreviation Capture := (list (option ospf.OSPF)) (only parsing).

(** The loop [for packet := range packetSource.Packets()] of [ParsePCAP]
    and of [StartLiveCapture]. *)
Definition processPackets (packets : Capture) (t : ospf.Routers) : ospf.Routers :=
  foldl (λ t packet,
           match packet with
           | None => t
           | Some layer => ospf.processOSPFPacket layer t
           end) t packets.

(** [ParsePCAP(filename)]; [opened] is what [pcap.OpenOffline] gives for
    the file: the packets of the capture, or an error. *)
Definition ParsePCAP (opened : Capture + string) (t : ospf.Routers)
    : Go.error * ospf.Routers :=
  match opened with
  | inr err => (Some ("error opening pcap file: " +:+ err), t)
  | inl packets => (None, processPackets packets t)
  end.

(** The remote routers a packet advertises to its router. *)
Definition advertised (layer : ospf.OSPF) : list N :=
  match ospf.Type_ layer, ospf.LSU layer with
  | ospf.OSPFLinkStateUpdate, Some lsu => ospf.AdvertisingRouter <$> ospf.LSAs lsu
  | _, _ => []
  end.

(** Whether a packet makes the entry of its router exist. *)
Definition announces (layer : ospf.OSPF) : bool :=
  match ospf.Type_ layer with
  | ospf.OSPFHello => bool_decide (ospf.Hello layer ≠ None)
  | ospf.OSPFDatabaseDescription => true
  | ospf.OSPFLinkStateRequest => true
  | ospf.OSPFLinkStateUpdate => bool_decide (advertised layer ≠ [])
  | ospf.OSPFLinkStateAcknowledgment => true
  | ospf.OSPFTypeUnknown _ => false
  end.

(** The remote routers of the links of a router. *)
Definition remotes (t : ospf.Routers) (routerID : N) : list N :=
  ospf.RemoteRouterID <$> ospf.links_of t routerID.

(** Every link is the link [ospf.new_link] makes for its remote router. *)
Definition uniform (t : ospf.Routers) : Prop :=
  ∀ routerID links,
    t !! routerID = Some links →
    Forall (λ l, l = ospf.new_link (ospf.RemoteRouterID l)) links.

(** One step of the capture loop. *)
Definition processPacket (t : ospf.Routers) (packet : option ospf.OSPF)
    : ospf.Routers :=
  match packet with
  | None => t
  | Some layer => ospf.processOSPFPacket layer t
  end.

(** A packet is absorbed by a topology that processing it would not
    change. *)
Definition absorbed (t : ospf.Routers) (packet : option ospf.OSPF) : Prop :=
  processPacket t packet = t.

End Parser.

(** Package api: the part of [Initialize] that adds the configured peers. *)
Module Initialize.

(** [config.BGPPeer] *)
Record BGPPeer := {
  Address : string;
  ASN : N;    (* uint32 *)
  Port : N    (* uint16 *)
}.

Section Initialize.
Context {Env : Type} {ext : Externals Env}.

(** The body of [for _, peer := range cfg.BGP.Peers]: port 0 stands for
    179, and an error of [AddPeer] is printed as a warning and otherwise
    ignored. *)
Definition addConfiguredPeer (peer : BGPPeer) : M Env unit :=
  let port := if (Port peer =? 0)%N then 179%N else Port peer in
  err ← Monitor.AddPeer (Address peer) (ASN peer) port;
  match err with
  | Some _ => mret tt
  | None => mret tt
  end.

Definition addConfiguredPeers (configured : list BGPPeer) : M Env unit :=
  for_range configured addConfiguredPeer.

End Initialize.
End Initialize.

(** Package telemetry: the event logger. *)
Module telemetry.




Section Logger.
(** [Metadata] is a [map[string]interface{}]; what it holds, and whether
    [json.Marshal] accepts it, is the caller's. *)
Context {Meta : Type}.

Record Event := {
  Timestamp : Go.Time;
  Type_ : string;
  Source : string;
  Message : string;
  Metadata : Meta
}.

(** The logger is its channel, of capacity 1000: the events sent and not
    yet received, oldest first. [printed] is what [LogEvent] and
    [processEvents] have handed to [log.Printf] so far, oldest first:
    the formatted messages, without the date and time the standard
    logger puts before each and the line end it puts after. *)
Record Logger := {
  events : list Event;
  printed : list string
}.

Definition NewLogger : Logger := {| events := []; printed := [] |}.

Definition capacity : nat := 1000.

(** [LogEvent], given the reading of the clock: the send succeeds when the
    channel has room; otherwise the event is dropped and a warning is
    printed. *)
Definition LogEvent (now : Go.Time) (eventType source message : string)
    (metadata : Meta) (l : Logger) : Logger :=
  let event := {| Timestamp := now; Type_ := eventType; Source := source;
                  Message := message; Metadata := metadata |} in
  if (length (events l) <? capacity)%nat
  then {| events := events l ++ [event]; printed := printed l |}
  else {| events := events l;
          printed := printed l
                     ++ ["Warning: event channel full, dropping event: "
                         +:+ message] |}.

(** One iteration of the loop of [processEvents], when the channel holds
    an event: it is received and marshalled; the result is printed, or
    the error when [json.Marshal] fails. *)
Definition processEvent (marshal : Event → string + string) (l : Logger)
    : Logger :=
  match events l with
  | [] => l
  | event :: rest =>
    match marshal event with
    | inr err =>
      {| events := rest;
         printed := printed l ++ ["Error marshaling event: " +:+ err] |}
    | inl data =>
      {| events := rest; printed := printed l ++ ["Event: " +:+ data] |}
    end
  end.

(** What happens to a logger: a call of [LogEvent] or an iteration of
    [processEvents]. *)
Inductive step :=
| Log (now : Go.Time) (eventType source message : string) (metadata : Meta)
| Process.

Definition run (marshal : Event → string + string) (l : Logger) (s : step)
    : Logger :=
  match s with
  | Log now eventType source message metadata =>
    LogEvent now eventType source message metadata l
  | Process => processEvent marshal l
  end.




End Logger.
Arguments Event : clear implicits.
Arguments Logger : clear implicits.
Arguments step : clear implicits.

End telemetry.

(** * Properties *)

(** ** Go arithmetic *)

Section GoFacts.
Import Go.

Lemma wrap64_small z : MinInt64 ≤ z ≤ MaxInt64 → wrap64 z = z.
Proof.
  unfold wrap64, MinInt64, MaxInt64. intros Hz.
  rewrite Z.mod_small by lia. lia.
Qed.

Lemma wrap64_range z : MinInt64 ≤ wrap64 z ≤ MaxInt64.
Proof.
  unfold wrap64, MinInt64, MaxInt64.
  pose proof (Z.mod_pos_bound (z + 2 ^ 63) (2 ^ 64)). lia.
Qed.

Lemma int64_inc_small x : MinInt64 ≤ x < MaxInt64 → int64_inc x = x + 1.
Proof. intros Hx. unfold int64_inc. apply wrap64_small. lia. Qed.

Lemma int64_inc_max : int64_inc MaxInt64 = MinInt64.
Proof. reflexivity. Qed.

(** Below the largest [int64], [k] increments add [k]. *)
Lemma iter_int64_inc_small (k : nat) x :
  MinInt64 ≤ x → x + Z.of_nat k ≤ MaxInt64 →
  Nat.iter k int64_inc x = x + Z.of_nat k.
Proof.
  intros Hmin. induction k as [|k IH]; intros Hmax.
  - change (x = x + 0). lia.
  - rewrite Nat.iter_succ, IH by lia. rewrite int64_inc_small by lia. lia.
Qed.

End GoFacts.

(** ** The event ledger *)

Section Ledger.
Import auto Engine.
Context {Env : Type} {ext : Externals Env}.

Lemma record_length event (l : list RemediationEvent) :
  (length l ≤ 1000 → length (record event l) ≤ 1000)%nat.
Proof.
  intros Hl. unfold record.
  destruct (Nat.ltb_spec 1000 (length (l ++ [event]))) as [Hlt|Hge].
  - rewrite length_drop. lia.
  - lia.
Qed.

(** The ledger after recording is the last 1000 entries of the ledger
    before with the event appended. *)
Lemma record_drop event (l : list RemediationEvent) :
  record event l = drop (length (l ++ [event]) - 1000) (l ++ [event]).
Proof.
  unfold record.
  destruct (Nat.ltb_spec 1000 (length (l ++ [event]))) as [Hlt|Hge]; [done|].
  replace (length (l ++ [event]) - 1000)%nat with 0%nat by lia. done.
Qed.

Lemma record_full event (l : list RemediationEvent) :
  length l = 1000%nat → record event l = drop 1 l ++ [event].
Proof.
  intros Hl. rewrite record_drop.
  replace (length (l ++ [event]) - 1000)%nat with 1%nat
    by (rewrite length_app; cbn [length]; lia).
  destruct l as [|x l]; [done|]. cbn [drop app]. by rewrite !drop_0.
Qed.

Lemma record_room event (l : list RemediationEvent) :
  (length l < 1000)%nat → record event l = l ++ [event].
Proof.
  intros Hl. unfold record.
  destruct (Nat.ltb_spec 1000 (length (l ++ [event]))) as [Hlt|Hge]; [|done].
  rewrite length_app in Hlt. cbn [length] in Hlt. lia.
Qed.

Lemma record_all_drop es (l : list RemediationEvent) :
  (length l ≤ 1000)%nat →
  record_all es l = drop (length (l ++ es) - 1000) (l ++ es).
Proof.
  revert l. induction es as [|e es IH]; intros l Hl.
  - cbn [record_all foldl]. rewrite app_nil_r.
    replace (length l - 1000)%nat with 0%nat by lia. done.
  - change (record_all (e :: es) l) with (record_all es (record e l)).
    rewrite IH by by apply record_length.
    rewrite record_drop.
    remember (length (l ++ [e]) - 1000)%nat as k eqn:Hk.
    assert (Hle : (k ≤ length (l ++ [e]))%nat) by lia.
    assert (Hlen : length (l ++ [e]) = S (length l))
      by (rewrite length_app; cbn [length]; lia).
    rewrite length_app, length_drop.
    replace (l ++ e :: es) with ((l ++ [e]) ++ es) by by rewrite <- app_assoc.
    rewrite <- (drop_app_le _ es k) by done.
    rewrite drop_drop. f_equal.
    rewrite (length_app (l ++ [e])). lia.
Qed.

Lemma for_range_recordEvent es (w : World Env) :
  for_range es recordEvent w
  = (tt, mkWorld (env w) (peers w) (record_all es (events w))).
Proof.
  revert w. induction es as [|e es IH]; intros w; simpl.
  - by destruct w.
  - unfold mbind, M_bind. simpl. by rewrite IH.
Qed.

(** C4. Whatever events are recorded on a new engine, in whatever number,
    the ledger holds at most 1000 entries and they are the most recent
    ones, in the order in which they were recorded; recording on a
    ledger of 1000 entries drops exactly the oldest one, and recording
    on a shorter ledger only appends. *)
Theorem C4_ledger_keeps_last_1000 :
  (∀ (es : list RemediationEvent) (e : Env) ps,
     let w' := (for_range es recordEvent (mkWorld e ps [])).2 in
     events w' = drop (length es - 1000) es
     ∧ (length (events w') ≤ 1000)%nat
     ∧ env w' = e ∧ peers w' = ps)
  ∧ (∀ event (w : World Env),
       length (events w) = 1000%nat →
       events (recordEvent event w).2 = drop 1 (events w) ++ [event])
  ∧ (∀ event (w : World Env),
       (length (events w) < 1000)%nat →
       events (recordEvent event w).2 = events w ++ [event]).
Proof.
  split; [|split].
  - intros es e ps w'. subst w'. rewrite for_range_recordEvent. simpl.
    rewrite record_all_drop by (simpl; lia). simpl.
    split; [done|]. split; [|done].
    rewrite length_drop. lia.
  - intros event w Hw. simpl. by apply record_full.
  - intros event w Hw. simpl. by apply record_room.
Qed.

End Ledger.

(** C4 on a run: 1001 events recorded on a new engine leave the last 1000,
    the first one gone. *)
Lemma C4_ledger_witness :
  let es := Sim.event <$> seqZ 0 1001 in
  let w' := (for_range es Engine.recordEvent
               (mkWorld (Sim.mkEnv 0 [] [] false false) ∅ [])).2 in
  events w' = Sim.event <$> seqZ 1 1000.
Proof.
  intros es w'.
  pose proof (@C4_ledger_keeps_last_1000 Sim.Env) as [H _].
  destruct (H es (Sim.mkEnv 0 [] [] false false) ∅) as [-> _].
  vm_compute. reflexivity.
Defined.

(** ** Remediation paths without a corrective action *)

Section Recording.
Import auto Engine.
Context {Env : Type} {ext : Externals Env}.

(** Recording puts the event at the end of the ledger, behind what is
    kept of the ledger before. *)
Lemma record_last event (l : list RemediationEvent) :
  last (record event l) = Some event.
Proof.
  rewrite record_drop, drop_app_le
    by (rewrite length_app; cbn [length]; lia).
  apply last_snoc.
Qed.

(** C10. [RemediateRPKI] and [RemediateOSPFAdjacency] return no error on
    every input and in every state; each records exactly one event, of
    type "rpki_invalid" and "ospf_adjacency" respectively, marked
    successful, and neither touches the peers: the only collaborator
    they call is the clock, for the time stamp. The event is the last
    one of the ledger afterwards: the ledger is the ledger before with
    the event appended, cut to its last 1000 entries, so on a ledger
    with room it is one entry longer, and on a full one the oldest entry
    has made place for it. *)
Theorem C10_rpki_and_ospf_always_succeed :
  ∀ (target : string) (w : World Env),
    let now := (time_Now (env w)).1 in
    let rpki := {| Timestamp := now; Type_ := "rpki_invalid";
                   Target := target; Reason := "rpki";
                   Action := "withdraw_prefix"; Success := true |} in
    let adjacency := {| Timestamp := now; Type_ := "ospf_adjacency";
                        Target := target; Reason := "adjacency_down";
                        Action := "restart_interface"; Success := true |} in
    (RemediateRPKI target w
     = (None,
        mkWorld (time_Now (env w)).2 (peers w)
          (record {| Timestamp := now; Type_ := "rpki_invalid";
                     Target := target; Reason := "rpki";
                     Action := "withdraw_prefix"; Success := true |}
                  (events w)))
     ∧ RemediateOSPFAdjacency target w
       = (None,
          mkWorld (time_Now (env w)).2 (peers w)
            (record {| Timestamp := now; Type_ := "ospf_adjacency";
                       Target := target; Reason := "adjacency_down";
                       Action := "restart_interface"; Success := true |}
                    (events w))))
    ∧ (events (RemediateRPKI target w).2
       = drop (length (events w ++ [rpki]) - 1000) (events w ++ [rpki])
       ∧ last (events (RemediateRPKI target w).2) = Some rpki
       ∧ ((length (events w) < 1000)%nat →
          events (RemediateRPKI target w).2 = events w ++ [rpki])
       ∧ (length (events w) = 1000%nat →
          events (RemediateRPKI target w).2 = drop 1 (events w) ++ [rpki]))
    ∧ (events (RemediateOSPFAdjacency target w).2
       = drop (length (events w ++ [adjacency]) - 1000) (events w ++ [adjacency])
       ∧ last (events (RemediateOSPFAdjacency target w).2) = Some adjacency
       ∧ ((length (events w) < 1000)%nat →
          events (RemediateOSPFAdjacency target w).2 = events w ++ [adjacency])
       ∧ (length (events w) = 1000%nat →
          events (RemediateOSPFAdjacency target w).2
          = drop 1 (events w) ++ [adjacency])).
Proof.
  intros target w now rpki adjacency.
  assert (Hrun :
    RemediateRPKI target w
    = (None, mkWorld (time_Now (env w)).2 (peers w) (record rpki (events w)))
    ∧ RemediateOSPFAdjacency target w
      = (None, mkWorld (time_Now (env w)).2 (peers w)
                 (record adjacency (events w)))).
  { subst now rpki adjacency.
    unfold RemediateRPKI, RemediateOSPFAdjacency, recordEvent, set_events,
      call, mbind, M_bind, mret, M_ret.
    destruct (time_Now (env w)) as [now e]. done. }
  destruct Hrun as [Hrpki Hadjacency].
  split; [by split|].
  rewrite Hrpki, Hadjacency. cbn [snd events].
  split.
  - split; [apply record_drop|]. split; [apply record_last|].
    split; [apply record_room|apply record_full].
  - split; [apply record_drop|]. split; [apply record_last|].
    split; [apply record_room|apply record_full].
Qed.

End Recording.

(** C10 on a run: on an empty ledger each of the two calls returns no
    error and leaves a ledger of exactly its one successful event. *)
Lemma C10_rpki_and_ospf_witness :
  let w := mkWorld (Sim.mkEnv Sim.noon [] [] false false) ∅ [] in
  ((Engine.RemediateRPKI "203.0.113.0/24" w).1 = None
   ∧ events (Engine.RemediateRPKI "203.0.113.0/24" w).2
     = [{| auto.Timestamp := Sim.noon; auto.Type_ := "rpki_invalid";
           auto.Target := "203.0.113.0/24"; auto.Reason := "rpki";
           auto.Action := "withdraw_prefix"; auto.Success := true |}])
  ∧ ((Engine.RemediateOSPFAdjacency "eth0" w).1 = None
     ∧ events (Engine.RemediateOSPFAdjacency "eth0" w).2
       = [{| auto.Timestamp := Sim.noon; auto.Type_ := "ospf_adjacency";
             auto.Target := "eth0"; auto.Reason := "adjacency_down";
             auto.Action := "restart_interface"; auto.Success := true |}]).
Proof.
  intros w. split.
  - destruct (C10_rpki_and_ospf_always_succeed "203.0.113.0/24" w)
      as ([Hrun _] & (_ & _ & Hroom & _) & _).
    split; [by rewrite Hrun|]. rewrite Hroom; [reflexivity|cbn; lia].
  - destruct (C10_rpki_and_ospf_always_succeed "eth0" w)
      as ([_ Hrun] & _ & (_ & _ & Hroom & _)).
    split; [by rewrite Hrun|]. rewrite Hroom; [reflexivity|cbn; lia].
Defined.

(** ** The label-stack validator *)

Section Validator.
Import mpls.

Lemma out_of_range_spec (value : N) :
  out_of_range value = false ↔ (16 ≤ value ≤ 1048575)%N.
Proof.
  unfold out_of_range. rewrite orb_false_iff, !N.ltb_ge. lia.
Qed.

(** Once the first MPLS layer of the packet has passed both checks and
    is not the bottom of the stack, the loop is back where it was with
    one more copy of the same label: no amount of fuel ends it. *)
Lemma ValidatePacket_loop_stuck packet (first : layers.MPLS) :
  gopacket.Layer_MPLS packet = Some first →
  out_of_range (layers.Label first) = false →
  layers.TTL first ≠ 0%N →
  layers.BottomOfStack first = false →
  ∀ fuel stack v, ValidatePacket_loop fuel packet (Some first) stack v = None.
Proof.
  intros Hfirst Hrange Httl Hbos.
  induction fuel as [|fuel IH]; intros stack v; [done|].
  cbn [ValidatePacket_loop label_of Value TTL BoS].
  rewrite Hrange, Hbos, Hfirst.
  destruct (N.eqb_spec (layers.TTL first) 0) as [?|_]; [done|].
  apply IH.
Qed.

Lemma ValidatePacket_loop_post packet fuel :
  ∀ current stack v r,
    ValidatePacket_loop fuel packet current stack v = Some r →
    loop_post stack v r.
Proof.
  induction fuel as [|fuel IH]; intros current stack v r; [done|].
  cbn [ValidatePacket_loop].
  destruct current as [cur|].
  2:{ intros [= <-]. cbn. split; [done|]. split; [done|].
      exists []. by rewrite app_nil_r. }
  destruct (out_of_range (Value (label_of cur))) eqn:Hrange.
  { intros [= <-]. cbn. split; [done|]. split; [done|].
    exists []. by rewrite app_nil_r. }
  destruct (N.eqb_spec (TTL (label_of cur)) 0) as [Httl|Httl].
  { intros [= <-]. cbn. split; [done|]. split; [done|].
    exists []. by rewrite app_nil_r. }
  assert (Hok : label_ok (label_of cur)).
  { split; [by apply out_of_range_spec|lia]. }
  destruct (BoS (label_of cur)).
  { intros [= <-]. cbn. split; [done|]. split; [done|].
    exists [label_of cur]. split; [done|]. by constructor. }
  destruct (gopacket.Layer_MPLS packet) as [next|].
  2:{ intros [= <-]. cbn. split; [done|]. split; [done|].
      exists [label_of cur]. split; [done|]. by constructor. }
  intros Hr. apply IH in Hr.
  destruct r as [[[stack'|] [err|]] v']; cbn in *; try done.
  all: destruct Hr as (? & ? & more & -> & Hmore).
  all: split; [done|]; split; [done|].
  all: exists (label_of cur :: more); rewrite <- app_assoc.
  all: split; [done|]; by constructor.
Qed.

Lemma ValidateLabelStack_range_ok labels :
  Forall (λ x, 16 ≤ x ≤ 1048575)%N labels →
  ∀ i v, ValidateLabelStack_range i labels v = (None, v).
Proof.
  induction 1 as [|x labels Hx _ IH]; intros i v; [done|].
  cbn [ValidateLabelStack_range].
  apply out_of_range_spec in Hx. rewrite Hx. apply IH.
Qed.

Lemma ValidateLabelStack_range_first_bad pre x post :
  Forall (λ x, 16 ≤ x ≤ 1048575)%N pre →
  out_of_range x = true →
  ∀ i v,
    ValidateLabelStack_range i (pre ++ x :: post) v
    = (Some ("invalid label value at position " +:+ pretty (i + length pre)%nat
             +:+ ": " +:+ pretty x +:+ " (must be 16-1048575)"),
       recordCorruption v).
Proof.
  intros Hpre Hx. induction Hpre as [|y pre Hy _ IH]; intros i v.
  - cbn [app ValidateLabelStack_range length]. rewrite Hx.
    by rewrite Nat.add_0_r.
  - cbn [app ValidateLabelStack_range length].
    apply out_of_range_spec in Hy. rewrite Hy, IH.
    by replace (S i + length pre)%nat with (i + S (length pre))%nat by lia.
Qed.

(** C7, as the code has it. Of a packet with an MPLS layer,
    [ValidatePacket] judges the outermost label. A value outside
    16..1048575 ends the call with the (still empty) stack marked
    invalid, an error that cites the value, and the corruption counter
    incremented once. A value in range with TTL 0 ends it the same way,
    except that the error is "TTL expired" and cites no value. A valid
    outermost label that is the bottom of the stack gives the stack of
    that label, marked valid, without error, the counter unchanged.
    And whenever the call returns: without error the stack is marked
    valid, all its labels are in range with a non-zero TTL and the
    counter is unchanged; with an error the stack is marked invalid and
    the counter is incremented once.
    [ValidateLabelStack] fails with "empty label stack" on the empty
    list, the counter unchanged; on a list whose first value out of
    range is at position [i] it fails with an error citing [i] and the
    value, the counter incremented once; and it succeeds, the counter
    unchanged, on a non-empty list of values in range. *)
Theorem C7_validation_of_the_outermost_label
    (v : Validator) (packet : gopacket.Packet) (first : layers.MPLS) :
  gopacket.Layer_MPLS packet = Some first →
  let label := label_of first in
  (¬ (16 ≤ Value label ≤ 1048575)%N →
   ∀ fuel,
     ValidatePacket (S fuel) v packet
     = Some ((Some {| Labels := []; Valid := false;
                      Error := "invalid label value: " +:+ pretty (Value label)
                               +:+ " (must be 16-1048575)" |},
              Some ("invalid label value: " +:+ pretty (Value label))),
             recordCorruption v))
  ∧ ((16 ≤ Value label ≤ 1048575)%N → TTL label = 0%N →
     ∀ fuel,
       ValidatePacket (S fuel) v packet
       = Some ((Some {| Labels := []; Valid := false; Error := "TTL expired" |},
                Some "TTL expired"),
               recordCorruption v))
  ∧ ((16 ≤ Value label ≤ 1048575)%N → (0 < TTL label)%N → BoS label = true →
     ∀ fuel,
       ValidatePacket (S fuel) v packet
       = Some ((Some {| Labels := [label]; Valid := true; Error := "" |}, None), v))
  ∧ (∀ fuel stack err v',
       ValidatePacket fuel v packet = Some ((stack, err), v') →
       ∃ s, stack = Some s ∧ Forall label_ok (Labels s)
            ∧ match err with
              | None => Valid s = true ∧ v' = v
              | Some _ =>
                Valid s = false
                ∧ corruptionEvents v' = Go.int64_inc (corruptionEvents v)
              end)
  ∧ ValidateLabelStack v [] = (Some "empty label stack", v)
  ∧ (∀ pre x post,
       Forall (λ x, 16 ≤ x ≤ 1048575)%N pre → ¬ (16 ≤ x ≤ 1048575)%N →
       ValidateLabelStack v (pre ++ x :: post)
       = (Some ("invalid label value at position " +:+ pretty (length pre)
                +:+ ": " +:+ pretty x +:+ " (must be 16-1048575)"),
          {| corruptionEvents := Go.int64_inc (corruptionEvents v) |}))
  ∧ (∀ labels,
       labels ≠ [] → Forall (λ x, 16 ≤ x ≤ 1048575)%N labels →
       ValidateLabelStack v labels = (None, v)).
Proof.
  intros Hfirst label. subst label.
  unfold ValidatePacket. rewrite Hfirst.
  repeat split.
  - intros Hbad fuel. cbn [ValidatePacket_loop].
    destruct (out_of_range (Value (label_of first))) eqn:Hr; [done|].
    by apply out_of_range_spec in Hr.
  - intros Hok Httl fuel. cbn [ValidatePacket_loop].
    apply out_of_range_spec in Hok. rewrite Hok, Httl. done.
  - intros Hok Httl Hbos fuel. cbn [ValidatePacket_loop].
    apply out_of_range_spec in Hok. rewrite Hok, Hbos.
    destruct (N.eqb_spec (TTL (label_of first)) 0) as [?|_]; [lia|done].
  - intros fuel stack err v' Hr.
    apply ValidatePacket_loop_post in Hr.
    destruct stack as [s|]; [|done]. exists s. split; [done|].
    destruct err as [err|]; cbn in Hr.
    + destruct Hr as (? & -> & more & -> & ?). done.
    + destruct Hr as (? & -> & more & -> & ?). done.
  - intros pre x post Hpre Hx.
    unfold ValidateLabelStack.
    destruct pre; cbn [app length Nat.eqb];
      rewrite (ValidateLabelStack_range_first_bad _ x post Hpre); try done.
    all: destruct (out_of_range x) eqn:Hr; [done|].
    all: by apply out_of_range_spec in Hr.
  - intros labels Hne Hok. unfold ValidateLabelStack.
    destruct labels; [done|]. cbn [length Nat.eqb].
    by apply ValidateLabelStack_range_ok.
Qed.

End Validator.

(** C7 on a packet whose only label, 100 with TTL 64, ends the stack. *)
Lemma C7_validation_witness :
  let first := {| layers.Label := 100; layers.TrafficClass := 0;
                  layers.BottomOfStack := true; layers.TTL := 64 |} in
  mpls.ValidatePacket 1 mpls.NewValidator
    [gopacket.LayerOther "Ethernet"; gopacket.LayerMPLS first]
  = Some ((Some {| mpls.Labels := [mpls.label_of first]; mpls.Valid := true;
                   mpls.Error := "" |}, None), mpls.NewValidator).
Proof.
  intros first.
  pose proof (C7_validation_of_the_outermost_label mpls.NewValidator
    [gopacket.LayerOther "Ethernet"; gopacket.LayerMPLS first] first eq_refl)
    as (_ & _ & H & _).
  apply H; [cbn; lia|cbn; lia|reflexivity].
Defined.

(** C7 as stated fails on a label with TTL 0: the error that comes back
    is "TTL expired", which cites no value (here 100). *)
Lemma C7_counterexample_ttl_error_cites_no_value :
  let first := {| layers.Label := 100; layers.TrafficClass := 0;
                  layers.BottomOfStack := true; layers.TTL := 0 |} in
  mpls.ValidatePacket 1 mpls.NewValidator [gopacket.LayerMPLS first]
  = Some ((Some {| mpls.Labels := []; mpls.Valid := false;
                   mpls.Error := "TTL expired" |}, Some "TTL expired"),
          mpls.recordCorruption mpls.NewValidator)
  ∧ Go.Contains "TTL expired" (pretty (layers.Label first)) = false.
Proof. split; reflexivity. Qed.

(** C8 fails on the code. A walk that visits each entry once and stops at
    the bottom of the stack would return the labels 100 and 200 of
    [Sim.two_label_packet]; the loop of [ValidatePacket] fetches the first
    MPLS layer of the packet again instead of the next one, so it is back
    at label 100 after every iteration and the call returns nothing,
    whatever the number of iterations allowed. *)
Theorem C8_walk_never_leaves_the_outermost_label :
  (layers.Label <$> mpls.upto_bottom (gopacket.mpls_entries Sim.two_label_packet))
  = [100%N; 200%N]
  ∧ ∀ fuel v, mpls.ValidatePacket fuel v Sim.two_label_packet = None.
Proof.
  split; [reflexivity|].
  intros fuel v. unfold mpls.ValidatePacket. cbn [Sim.two_label_packet gopacket.Layer_MPLS].
  by apply ValidatePacket_loop_stuck.
Qed.

(** ** The topology *)

Section Topology.
Import ospf.

Lemma found_in_spec links remote :
  found_in links remote = true ↔ remote ∈ RemoteRouterID <$> links.
Proof.
  induction links as [|l links IH]; cbn [found_in fmap list_fmap].
  - split; [done|]. by intros ?%elem_of_nil.
  - rewrite elem_of_cons.
    destruct (N.eqb_spec (RemoteRouterID l) remote) as [->|Hne].
    + split; auto.
    + rewrite IH. split; [auto|]. intros [?|?]; [congruence|done].
Qed.

Lemma ensureRouter_insert routerID (t : Routers) :
  ensureRouter routerID t = <[routerID := links_of t routerID]> t.
Proof.
  unfold ensureRouter, links_of.
  destruct (t !! routerID) as [links|] eqn:Hl; cbn [default]; [|done].
  by rewrite insert_id.
Qed.

Lemma mergeLSA_insert routerID (t : Routers) lsa :
  mergeLSA routerID t lsa
  = <[routerID := add_link (links_of t routerID) (AdvertisingRouter lsa)]> t.
Proof.
  unfold mergeLSA, add_link. cbn [RemoteRouterID].
  rewrite ensureRouter_insert, lookup_insert_eq. cbn [default].
  destruct (found_in _ _); [done|].
  by rewrite insert_insert_eq.
Qed.

Lemma links_of_insert routerID links (t : Routers) :
  links_of (<[routerID := links]> t) routerID = links.
Proof. unfold links_of. by rewrite lookup_insert_eq. Qed.

Lemma merge_all_insert routerID lsas (t : Routers) :
  lsas ≠ [] →
  foldl (mergeLSA routerID) t lsas
  = <[routerID := foldl add_link (links_of t routerID)
                    (AdvertisingRouter <$> lsas)]> t.
Proof.
  revert t. induction lsas as [|lsa lsas IH]; intros t Hne; [done|].
  cbn [foldl fmap list_fmap]. rewrite mergeLSA_insert.
  destruct lsas as [|lsa' lsas]; [done|].
  rewrite IH by done. by rewrite links_of_insert, insert_insert_eq.
Qed.

Lemma add_link_keeps links remote a :
  a ∈ RemoteRouterID <$> links → a ∈ RemoteRouterID <$> add_link links remote.
Proof.
  unfold add_link. destruct (found_in _ _); [done|].
  rewrite fmap_app, elem_of_app. auto.
Qed.

Lemma add_link_has links remote :
  remote ∈ RemoteRouterID <$> add_link links remote.
Proof.
  unfold add_link. destruct (found_in links remote) eqn:Hf.
  - by apply found_in_spec.
  - rewrite fmap_app, elem_of_app. right. cbn. apply list_elem_of_singleton.
    done.
Qed.

Lemma add_all_keeps remotes : ∀ links a,
  a ∈ RemoteRouterID <$> links →
  a ∈ RemoteRouterID <$> foldl add_link links remotes.
Proof.
  induction remotes as [|r remotes IH]; intros links a Ha; [done|].
  cbn [foldl]. by apply IH, add_link_keeps.
Qed.

Lemma add_all_has remotes : ∀ links a,
  a ∈ remotes → a ∈ RemoteRouterID <$> foldl add_link links remotes.
Proof.
  induction remotes as [|r remotes IH]; intros links a Ha.
  - by apply elem_of_nil in Ha.
  - cbn [foldl]. apply elem_of_cons in Ha as [->|Ha].
    + apply add_all_keeps, add_link_has.
    + by apply IH.
Qed.

(** Advertisements of remote routers that all have a link change
    nothing. *)
Lemma add_all_known remotes links :
  (∀ a, a ∈ remotes → a ∈ RemoteRouterID <$> links) →
  foldl add_link links remotes = links.
Proof.
  induction remotes as [|r remotes IH]; intros Hall; [done|].
  cbn [foldl]. unfold add_link at 2.
  assert (found_in links r = true) as ->.
  { apply found_in_spec, Hall, elem_of_cons. by left. }
  apply IH. intros a Ha. apply Hall, elem_of_cons. by right.
Qed.

Lemma add_link_NoDup links remote :
  NoDup (RemoteRouterID <$> links) →
  NoDup (RemoteRouterID <$> add_link links remote).
Proof.
  intros Hnd. unfold add_link. destruct (found_in links remote) eqn:Hf; [done|].
  rewrite fmap_app. apply NoDup_app. split; [done|].
  split; [|apply NoDup_singleton].
  intros a Ha Ha'. cbn in Ha'. apply list_elem_of_singleton in Ha' as ->.
  apply found_in_spec in Ha. congruence.
Qed.

Lemma add_all_NoDup remotes : ∀ links,
  NoDup (RemoteRouterID <$> links) →
  NoDup (RemoteRouterID <$> foldl add_link links remotes).
Proof.
  induction remotes as [|r remotes IH]; intros links Hnd; [done|].
  cbn [foldl]. by apply IH, add_link_NoDup.
Qed.

Lemma ensureRouter_idem routerID (t : Routers) :
  ensureRouter routerID (ensureRouter routerID t) = ensureRouter routerID t.
Proof.
  rewrite !ensureRouter_insert, links_of_insert. by rewrite insert_insert_eq.
Qed.

Lemma ensureRouter_deduplicated routerID (t : Routers) :
  deduplicated t → deduplicated (ensureRouter routerID t).
Proof.
  intros Ht r links. unfold ensureRouter.
  destruct (t !! routerID) eqn:Hl; [apply Ht|].
  destruct (decide (r = routerID)) as [->|Hne].
  - rewrite lookup_insert_eq. intros [= <-]. constructor.
  - rewrite lookup_insert_ne by done. apply Ht.
Qed.

Lemma processOSPFPacket_idem ospf (t : Routers) :
  processOSPFPacket ospf (processOSPFPacket ospf t) = processOSPFPacket ospf t.
Proof.
  unfold processOSPFPacket.
  destruct (Type_ ospf); try apply ensureRouter_idem; try done.
  - destruct (Hello ospf); [apply ensureRouter_idem|done].
  - destruct (LSU ospf) as [[lsas]|]; [|done]. cbn [LSAs].
    destruct (decide (lsas = [])) as [->|Hne]; [done|].
    rewrite !merge_all_insert by done.
    rewrite links_of_insert, insert_insert_eq. f_equal.
    apply add_all_known. intros a Ha. by apply add_all_has.
Qed.

Lemma processOSPFPacket_deduplicated ospf (t : Routers) :
  deduplicated t → deduplicated (processOSPFPacket ospf t).
Proof.
  intros Ht. unfold processOSPFPacket.
  destruct (Type_ ospf); try (by apply ensureRouter_deduplicated); try done.
  - destruct (Hello ospf); [by apply ensureRouter_deduplicated|done].
  - destruct (LSU ospf) as [[lsas]|]; [|done]. cbn [LSAs].
    destruct (decide (lsas = [])) as [->|Hne]; [done|].
    rewrite merge_all_insert by done.
    intros r links. destruct (decide (r = OSPF_RouterID ospf)) as [->|Hr].
    + rewrite lookup_insert_eq. intros [= <-].
      apply add_all_NoDup. unfold links_of.
      destruct (t !! OSPF_RouterID ospf) as [links|] eqn:Hl; cbn [default].
      * by apply (Ht _ _ Hl).
      * constructor.
    + rewrite lookup_insert_ne by done. apply Ht.
Qed.

(** C9. Processing a packet a second time leaves the topology as the
    first time left it, for every packet and every topology, link-state
    updates included. Two updates of one router that advertise two
    different remote routers leave that router with two distinct links,
    one per remote router (on a new parser, exactly these two). And in
    every topology the parser can reach, the links of a router have
    pairwise different remote router identifiers. *)
Theorem C9_merge_idempotent_and_deduplicating :
  (∀ ospf (t : Routers),
     processOSPFPacket ospf (processOSPFPacket ospf t) = processOSPFPacket ospf t)
  ∧ (∀ (t : Routers) routerID a b,
       a ≠ b →
       let t' := processOSPFPacket (lsu_packet routerID [b])
                   (processOSPFPacket (lsu_packet routerID [a]) t) in
       ∃ la lb,
         la ∈ links_of t' routerID ∧ lb ∈ links_of t' routerID
         ∧ RemoteRouterID la = a ∧ RemoteRouterID lb = b ∧ la ≠ lb)
  ∧ (∀ routerID a b,
       a ≠ b →
       links_of (processOSPFPacket (lsu_packet routerID [b])
                   (processOSPFPacket (lsu_packet routerID [a]) NewParser))
                routerID
       = [new_link a; new_link b])
  ∧ (∀ t : Routers,
       reachable t →
       ∀ routerID links,
         t !! routerID = Some links → NoDup (RemoteRouterID <$> links)).
Proof.
  split; [exact processOSPFPacket_idem|]. split; [|split].
  - intros t routerID a b Hab t'. subst t'.
    unfold processOSPFPacket, lsu_packet. cbn [Type_ LSU LSAs OSPF_RouterID].
    cbn [fmap list_fmap foldl]. rewrite !mergeLSA_insert, !links_of_insert.
    cbn [AdvertisingRouter].
    set (links := add_link (add_link (links_of t routerID) a) b).
    assert (Ha : a ∈ RemoteRouterID <$> links)
      by apply add_link_keeps, add_link_has.
    assert (Hb : b ∈ RemoteRouterID <$> links) by apply add_link_has.
    apply list_elem_of_fmap in Ha as (la & Hla & Ha).
    apply list_elem_of_fmap in Hb as (lb & Hlb & Hb).
    exists la, lb. repeat split; try done. congruence.
  - intros routerID a b Hab.
    unfold processOSPFPacket, lsu_packet. cbn [Type_ LSU LSAs OSPF_RouterID].
    cbn [fmap list_fmap foldl]. rewrite !mergeLSA_insert, !links_of_insert.
    cbn [AdvertisingRouter]. unfold links_of, NewParser.
    rewrite lookup_empty. cbn [default]. unfold add_link.
    cbn [found_in app RemoteRouterID new_link].
    destruct (N.eqb_spec a b) as [?|_]; done.
  - intros t Ht. change (deduplicated t).
    induction Ht as [|ospf t _ IH].
    + intros r links. unfold NewParser. by rewrite lookup_empty.
    + by apply processOSPFPacket_deduplicated.
Qed.

End Topology.

(** C9 on a run: router 1 hears of routers 2 and 3, each twice. *)
Lemma C9_merge_witness :
  let heard a t := ospf.processOSPFPacket (ospf.lsu_packet 1 [a]) t in
  ospf.links_of (heard 3%N (heard 3%N (heard 2%N (heard 2%N ospf.NewParser)))) 1%N
  = [ospf.new_link 2; ospf.new_link 3].
Proof.
  intros heard.
  destruct C9_merge_idempotent_and_deduplicating as (Hidem & _ & Htwo & _).
  unfold heard. rewrite !Hidem. apply Htwo. done.
Defined.

(** ** The peer registry *)

Section ForRange.
Context {Env : Type}.

Lemma for_range_cons {A} (x : A) l (body : A → M Env unit) (w : World Env) :
  for_range (x :: l) body w = for_range l body (body x w).2.
Proof.
  cbn [for_range]. unfold mbind, M_bind. by destruct (body x w).
Qed.

Lemma for_range_app {A} (l1 l2 : list A) (body : A → M Env unit) (w : World Env) :
  for_range (l1 ++ l2) body w = for_range l2 body (for_range l1 body w).2.
Proof.
  revert w. induction l1 as [|x l1 IH]; intros w; [done|].
  cbn [app]. by rewrite !for_range_cons, IH.
Qed.

End ForRange.

Section MonitorFacts.
Import bgp Monitor.
Context {Env : Type} {ext : Externals Env}.

Lemma for_range_withdrawPath stream (w : World Env) :
  for_range stream withdrawPath w
  = (tt, mkWorld (delete_all stream (env w)) (peers w) (events w)).
Proof.
  revert w. induction stream as [|path stream IH]; intros w.
  - by destruct w.
  - rewrite for_range_cons, IH. unfold withdrawPath. run_M.
    fold (withdrawal path).
    change (delete_all (path :: stream) (env w))
      with (delete_all stream (server_DeletePath (withdrawal path) (env w)).2).
    destruct (server_DeletePath (withdrawal path) (env w)) as [[err|] e];
      reflexivity.
Qed.

Lemma WithdrawAllPrefixes_unfold address (w : World Env) :
  WithdrawAllPrefixes address w
  = match peers w !! address with
    | None => (Some ("peer " +:+ address +:+ " not found"), w)
    | Some _ =>
      match server_ListPath (env w) with
      | (inr err, e) =>
        (Some ("failed to list paths: " +:+ err), mkWorld e (peers w) (events w))
      | (inl stream, e) =>
        (None, mkWorld (delete_all stream e)
                 (alter (setFlapCount 0) address (peers w)) (events w))
      end
    end.
Proof.
  unfold WithdrawAllPrefixes. run_M.
  destruct (peers w !! address) as [p|]; [|done].
  destruct (server_ListPath (env w)) as [[stream|err] e]; [|done].
  by rewrite for_range_withdrawPath.
Qed.

Lemma WithdrawAllPrefixes_events address (w : World Env) :
  events (WithdrawAllPrefixes address w).2 = events w.
Proof.
  rewrite WithdrawAllPrefixes_unfold.
  destruct (peers w !! address); [|done].
  by destruct (server_ListPath (env w)) as [[stream|err] e].
Qed.

End MonitorFacts.

Section Withdraw.
Import bgp Monitor.
Context {Env : Type} {ext : Externals Env}.

(** C6, as the code has it. [WithdrawAllPrefixes] fails with
    "peer ... not found" on an untracked address and leaves the world
    as it is. On a tracked address it lists the paths of the session
    engine; when the listing fails, that error is returned, wrapped, and
    neither the peers nor the ledger change. Otherwise a [DeletePath] is
    sent for every listed path, the outcome of each is ignored, the flap
    count of the peer is set to zero and no error is returned. So the
    flap count of the peer is reset exactly when the call returns no
    error, and no other peer is touched. *)
Theorem C6_withdraw_reports_lookup_and_listing_errors
    (address : string) (w : World Env) :
  (peers w !! address = None →
   WithdrawAllPrefixes address w
   = (Some ("peer " +:+ address +:+ " not found"), w))
  ∧ (∀ peer err e,
       peers w !! address = Some peer →
       server_ListPath (env w) = (inr err, e) →
       WithdrawAllPrefixes address w
       = (Some ("failed to list paths: " +:+ err),
          mkWorld e (peers w) (events w)))
  ∧ (∀ peer stream e,
       peers w !! address = Some peer →
       server_ListPath (env w) = (inl stream, e) →
       WithdrawAllPrefixes address w
       = (None,
          mkWorld (delete_all stream e)
            (<[address := setFlapCount 0 peer]> (peers w)) (events w)))
  ∧ (∀ peer,
       peers w !! address = Some peer →
       peers (WithdrawAllPrefixes address w).2 !! address
       = Some (if Go.is_nil (WithdrawAllPrefixes address w).1
               then setFlapCount 0 peer else peer))
  ∧ (∀ other,
       other ≠ address →
       peers (WithdrawAllPrefixes address w).2 !! other = peers w !! other).
Proof.
  rewrite WithdrawAllPrefixes_unfold.
  split; [|split; [|split; [|split]]].
  - by intros ->.
  - intros peer err e -> ->. done.
  - intros peer stream e Hp ->. rewrite Hp. do 2 f_equal.
    apply map_eq. intros a. destruct (decide (a = address)) as [->|Hne].
    + by rewrite lookup_alter_eq, lookup_insert_eq, Hp.
    + by rewrite lookup_alter_ne, lookup_insert_ne.
  - intros peer Hp. rewrite Hp.
    destruct (server_ListPath (env w)) as [[stream|err] e]; cbn; [|done].
    by rewrite lookup_alter_eq, Hp.
  - intros other Hne. destruct (peers w !! address) as [peer|]; [|done].
    destruct (server_ListPath (env w)) as [[stream|err] e]; cbn; [|done].
    by rewrite lookup_alter_ne.
Qed.

End Withdraw.

(** C6 on a run: one path in the table, its deletion accepted; the peer,
    at 4 flaps, is back at none. *)
Lemma C6_withdraw_witness :
  let e := Sim.mkEnv Sim.noon [] [Sim.path "203.0.113.0/24"] false false in
  let old := Sim.peer "10.0.0.1" 4 (Sim.noon - 1) false in
  let w := mkWorld e {["10.0.0.1" := old]} [] in
  Monitor.WithdrawAllPrefixes "10.0.0.1" w
  = (None,
     mkWorld (Sim.mkEnv Sim.noon [] [] false false)
       (<["10.0.0.1" := bgp.setFlapCount 0 old]> {["10.0.0.1" := old]}) []).
Proof.
  intros e old w.
  destruct (C6_withdraw_reports_lookup_and_listing_errors "10.0.0.1" w)
    as (_ & _ & H & _).
  apply (H old [Sim.path "203.0.113.0/24"] e); reflexivity.
Defined.

(** C6 as stated fails when the session engine refuses a deletion: every
    [DeletePath] of this run fails, the table keeps its path, and yet the
    call returns no error and the flap count is reset from 4 to 0. *)
Lemma C6_counterexample_refused_deletion_is_not_reported :
  let e := Sim.mkEnv Sim.noon [] [Sim.path "203.0.113.0/24"] false true in
  let w := mkWorld e {["10.0.0.1" := Sim.peer "10.0.0.1" 4 (Sim.noon - 1) false]} [] in
  server_DeletePath (Monitor.withdrawal (Sim.path "203.0.113.0/24")) e
  = (Some "path not found", e)
  ∧ (Monitor.WithdrawAllPrefixes "10.0.0.1" w).1 = None
  ∧ env (Monitor.WithdrawAllPrefixes "10.0.0.1" w).2 = e
  ∧ bgp.FlapCount <$> peers (Monitor.WithdrawAllPrefixes "10.0.0.1" w).2 !! "10.0.0.1"
    = Some 0.
Proof. vm_compute. repeat split; reflexivity. Qed.

Section Refresh.
Import bgp Monitor Registry.
Context {Env : Type} {ext : Externals Env}.

Lemma updatePeerState_unfold address (w : World Env) :
  updatePeerState address w
  = match server_GetPeer address (env w) with
    | (inr _, e) => (tt, mkWorld e (peers w) (events w))
    | (inl resp, e) =>
      match peers w !! address with
      | None => (tt, mkWorld e (peers w) (events w))
      | Some peer =>
        if Established peer && negb (api.is_ESTABLISHED (api.SessionState_ resp))
        then (tt, mkWorld (time_Now e).2
                    (<[address := polled resp (time_Now e).1 peer]> (peers w))
                    (events w))
        else (tt, mkWorld e
                    (<[address := polled resp (LastFlapTime peer) peer]> (peers w))
                    (events w))
      end
    end.
Proof.
  unfold updatePeerState, polled. run_M.
  destruct (server_GetPeer address (env w)) as [[resp|err] e]; [|done].
  cbn [peers]. destruct (peers w !! address) as [peer|]; [|done].
  destruct (api.is_ESTABLISHED (api.SessionState_ resp)); cbn [Established setSession].
  - rewrite andb_false_r. done.
  - destruct (Established peer); cbn [andb negb]; [|done].
    run_M. by destruct (time_Now e).
Qed.

Lemma updatePeerState_other address other (w : World Env) :
  other ≠ address →
  peers (updatePeerState address w).2 !! other = peers w !! other.
Proof.
  intros Hne. rewrite updatePeerState_unfold.
  destruct (server_GetPeer address (env w)) as [[resp|err] e]; [|done].
  destruct (peers w !! address) as [peer|]; [|done].
  destruct (_ && _); cbn; by rewrite lookup_insert_ne.
Qed.

(** What the turn of a tracked peer does to it. *)
Lemma updatePeerState_same address peer (w : World Env) :
  peers w !! address = Some peer →
  peers (updatePeerState address w).2 !! address
  = Some match server_GetPeer address (env w) with
         | (inr _, _) => peer
         | (inl resp, e) => polled resp (time_Now e).1 peer
         end.
Proof.
  intros Hp. rewrite updatePeerState_unfold, Hp.
  destruct (server_GetPeer address (env w)) as [[resp|err] e]; [|done].
  destruct (_ && _) eqn:Hflap; cbn; rewrite lookup_insert_eq; [done|].
  f_equal. unfold polled.
  destruct (api.is_ESTABLISHED _); [done|].
  destruct (Established peer); [done|done].
Qed.

Lemma range_untouched address keys : ∀ w : World Env,
  address ∉ keys →
  peers (for_range keys updatePeerState w).2 !! address = peers w !! address.
Proof.
  induction keys as [|k keys IH]; intros w Hnotin; [done|].
  apply not_elem_of_cons in Hnotin as [Hne Hnotin].
  rewrite for_range_cons, IH by done. by apply updatePeerState_other.
Qed.

Lemma updatePeerStates_unfold (w : World Env) :
  updatePeerStates w = for_range (map_to_list (peers w)).*1 updatePeerState w.
Proof. done. Qed.

(** In one poll every tracked peer has exactly one turn. *)
Lemma updatePeerStates_turn address peer (w : World Env) :
  peers w !! address = Some peer →
  ∃ before after,
    (map_to_list (peers w)).*1 = before ++ address :: after
    ∧ (address ∉ before) ∧ (address ∉ after)
    ∧ let w0 := (for_range before updatePeerState w).2 in
      peers w0 !! address = Some peer
      ∧ peers (updatePeerStates w).2 !! address
        = peers (updatePeerState address w0).2 !! address.
Proof.
  intros Hp. rewrite updatePeerStates_unfold.
  assert (Hin : address ∈ (map_to_list (peers w)).*1).
  { apply list_elem_of_fmap. exists (address, peer).
    split; [done|]. by apply elem_of_map_to_list. }
  pose proof (NoDup_fst_map_to_list (peers w)) as Hnd.
  apply list_elem_of_split in Hin as (before & after & Hkeys).
  rewrite Hkeys in Hnd |- *.
  apply NoDup_app in Hnd as (_ & Hdisj & Hnd').
  apply NoDup_cons in Hnd' as [Hafter _].
  assert (Hbefore : address ∉ before).
  { intros Hin. apply (Hdisj _ Hin), elem_of_cons. by left. }
  exists before, after. repeat split; try done.
  - by rewrite range_untouched.
  - rewrite for_range_app, for_range_cons. by rewrite range_untouched.
Qed.

Lemma polled_Established resp now peer :
  Established (polled resp now peer) = api.is_ESTABLISHED (api.SessionState_ resp).
Proof.
  unfold polled. destruct (api.is_ESTABLISHED _); [done|].
  by destruct (Established peer).
Qed.

Lemma polled_Address resp now peer :
  Address (polled resp now peer) = Address peer.
Proof.
  unfold polled. destruct (api.is_ESTABLISHED _); [done|].
  by destruct (Established peer).
Qed.

Lemma polled_flap resp now peer :
  Established peer && negb (api.is_ESTABLISHED (api.SessionState_ resp)) = true →
  FlapCount (polled resp now peer) = Go.int64_inc (FlapCount peer)
  ∧ LastFlapTime (polled resp now peer) = now.
Proof.
  unfold polled. intros [-> Hest%negb_true_iff]%andb_true_iff.
  by rewrite Hest.
Qed.

Lemma polled_no_flap resp now peer :
  Established peer && negb (api.is_ESTABLISHED (api.SessionState_ resp)) = false →
  FlapCount (polled resp now peer) = FlapCount peer
  ∧ LastFlapTime (polled resp now peer) = LastFlapTime peer.
Proof.
  unfold polled. destruct (api.is_ESTABLISHED _); [done|].
  by destruct (Established peer).
Qed.

(** One poll, seen from the registry: the peer stays tracked, and its
    flap count is one more exactly when the poll took it from
    established to not established. *)
Lemma updatePeerStates_flap address peer (w : World Env) :
  peers w !! address = Some peer →
  ∃ peer',
    peers (updatePeerStates w).2 !! address = Some peer'
    ∧ Address peer' = Address peer
    ∧ FlapCount peer'
      = (if Established peer && negb (Established peer')
         then Go.int64_inc (FlapCount peer) else FlapCount peer)
    ∧ (Established peer && negb (Established peer') = false →
       LastFlapTime peer' = LastFlapTime peer).
Proof.
  intros Hp.
  destruct (updatePeerStates_turn _ _ _ Hp)
    as (before & after & _ & _ & _ & Hw0 & ->).
  rewrite (updatePeerState_same _ _ _ Hw0).
  destruct (server_GetPeer address _) as [[resp|err] e].
  - eexists. split; [done|]. rewrite polled_Address, polled_Established.
    split; [done|].
    destruct (_ && _) eqn:Hflap.
    + split; [by apply polled_flap|done].
    + split; [by apply polled_no_flap|]. intros _. by apply polled_no_flap.
  - exists peer. split; [done|]. split; [done|].
    rewrite andb_negb_r. done.
Qed.

(** C3. A tracked peer has one turn in every poll. Its turn leaves it
    as it was when the session engine answers with an error. Otherwise
    the peer is established afterwards exactly when the answer says so,
    and when it was established before and the answer says it is not,
    its flap count is incremented once and its last-flap time is the
    reading of the clock taken in that turn; in every other case both
    stay as they were. In particular a peer that was not established
    before a poll keeps its flap count through it. Over any number of
    polls the flap count has been incremented once for each poll that
    took the peer from established to not established: it is the count
    before plus the number of these polls, as long as that fits an
    [int64]. *)
Theorem C3_one_flap_per_transition
    (address : string) (peer : PeerState) (w : World Env) :
  peers w !! address = Some peer →
  (∃ peer',
     peers (updatePeerState address w).2 !! address = Some peer'
     ∧ match server_GetPeer address (env w) with
       | (inr _, _) => peer' = peer
       | (inl resp, e) =>
         Established peer' = api.is_ESTABLISHED (api.SessionState_ resp)
         ∧ if Established peer && negb (api.is_ESTABLISHED (api.SessionState_ resp))
           then FlapCount peer' = Go.int64_inc (FlapCount peer)
                ∧ LastFlapTime peer' = (time_Now e).1
           else FlapCount peer' = FlapCount peer
                ∧ LastFlapTime peer' = LastFlapTime peer
       end)
  ∧ (∃ before after,
       (map_to_list (peers w)).*1 = before ++ address :: after
       ∧ (address ∉ before) ∧ (address ∉ after)
       ∧ let w0 := (for_range before updatePeerState w).2 in
         peers w0 !! address = Some peer
         ∧ peers (updatePeerStates w).2 !! address
           = peers (updatePeerState address w0).2 !! address)
  ∧ (Established peer = false →
     ∃ peer',
       peers (updatePeerStates w).2 !! address = Some peer'
       ∧ FlapCount peer' = FlapCount peer
       ∧ LastFlapTime peer' = LastFlapTime peer)
  ∧ (∀ n,
       ∃ peer',
         peers (polls n w) !! address = Some peer'
         ∧ FlapCount peer'
           = Nat.iter (transitions address n w) Go.int64_inc (FlapCount peer)
         ∧ (Go.MinInt64 ≤ FlapCount peer →
            FlapCount peer + Z.of_nat (transitions address n w) ≤ Go.MaxInt64 →
            FlapCount peer'
            = FlapCount peer + Z.of_nat (transitions address n w))).
Proof.
  intros Hp. split; [|split; [|split]].
  - rewrite (updatePeerState_same _ _ _ Hp). eexists. split; [done|].
    destruct (server_GetPeer address (env w)) as [[resp|err] e]; [|done].
    split; [apply polled_Established|].
    destruct (_ && _) eqn:Hflap.
    + by apply polled_flap.
    + by apply polled_no_flap.
  - by apply updatePeerStates_turn.
  - intros Hest.
    destruct (updatePeerStates_flap _ _ _ Hp) as (peer' & Hp' & _ & Hcount & Hlast).
    exists peer'. rewrite Hest in Hcount, Hlast. cbn in Hcount, Hlast. auto.
  - intros n.
    assert (Hiter : ∃ peer',
      peers (polls n w) !! address = Some peer'
      ∧ FlapCount peer'
        = Nat.iter (transitions address n w) Go.int64_inc (FlapCount peer)).
    { revert w peer Hp.
      induction n as [|n IH]; intros w peer Hp.
      + exists peer. done.
      + cbn [polls transitions].
        destruct (updatePeerStates_flap _ _ _ Hp) as (peer' & Hp' & _ & Hcount & _).
        destruct (IH _ _ Hp') as (peer'' & Hp'' & Hcount'').
        exists peer''. split; [done|].
        rewrite Hcount'', Hcount. unfold established_at. rewrite Hp, Hp'.
        destruct (_ && _); cbn [Nat.add]; [|done].
        by rewrite Nat.iter_succ_r. }
    destruct Hiter as (peer' & Hp' & Hcount).
    exists peer'. split; [done|]. split; [done|].
    intros Hmin Hmax. rewrite Hcount. by apply iter_int64_inc_small.
Qed.

End Refresh.

(** C3 on a run: the session engine reports the peer established, then
    idle three times; the three polls that follow the first see one
    transition, and the flap count goes from 0 to 1. *)
Lemma C3_one_flap_witness :
  let e := Sim.mkEnv Sim.noon
             [api.ESTABLISHED; api.IDLE; api.IDLE; api.IDLE] [] false false in
  let w := mkWorld e {["10.0.0.1" := Sim.peer "10.0.0.1" 0 Go.zeroTime false]} [] in
  bgp.FlapCount <$> peers (Registry.polls 4 w) !! "10.0.0.1" = Some 1
  ∧ Registry.transitions "10.0.0.1" 4 w = 1%nat.
Proof.
  intros e w.
  destruct (C3_one_flap_per_transition "10.0.0.1"
              (Sim.peer "10.0.0.1" 0 Go.zeroTime false) w eq_refl)
    as (_ & _ & _ & H).
  destruct (H 4%nat) as (peer' & Hp' & Hcount & _).
  rewrite Hp'.
  change (Some (bgp.FlapCount peer') = Some 1
          ∧ Registry.transitions "10.0.0.1" 4 w = 1%nat).
  rewrite Hcount. vm_compute. split; reflexivity.
Defined.

Section RegistryInvariant.
Import bgp Monitor Registry.
Context {Env : Type} {ext : Externals Env}.

Lemma AddPeer_peers address asn port (w : World Env) :
  peers (AddPeer address asn port w).2 = <[address := fresh_peer address asn]> (peers w).
Proof.
  unfold AddPeer. run_M.
  by destruct (server_AddPeer address asn port (env w)) as [[err|] e].
Qed.

Lemma GetPeer_world address (w : World Env) : (GetPeer address w).2 = w.
Proof. unfold GetPeer. run_M. by destruct (peers w !! address). Qed.

Lemma updatePeerStates_untracked address (w : World Env) :
  peers w !! address = None → peers (updatePeerStates w).2 !! address = None.
Proof.
  intros Hp. rewrite updatePeerStates_unfold, range_untouched; [done|].
  intros (kv & -> & Hkv%elem_of_map_to_list')%list_elem_of_fmap. congruence.
Qed.

Lemma run_well_keyed o (w : World Env) :
  well_keyed w → well_keyed (run o w).2.
Proof.
  intros Hw. destruct o as [a asn port| |a|a|]; unfold run; run_M.
  - destruct (AddPeer a asn port w) as [err w'] eqn:Hrun. cbn.
    pose proof (AddPeer_peers a asn port w) as Hpeers.
    rewrite Hrun in Hpeers. cbn in Hpeers.
    intros address peer. rewrite Hpeers.
    destruct (decide (address = a)) as [->|Hne].
    + rewrite lookup_insert_eq. intros [= <-]. cbn.
      unfold Go.MinInt64, Go.MaxInt64. split; [done|lia].
    + rewrite lookup_insert_ne by done. apply Hw.
  - intros address peer' Hp'.
    destruct (peers w !! address) as [peer|] eqn:Hp.
    + destruct (updatePeerStates_flap _ _ _ Hp) as (peer'' & Hp'' & Haddr & Hcount & _).
      rewrite Hp'' in Hp'. injection Hp' as ->.
      destruct (Hw _ _ Hp) as [Ha Hrange].
      split; [congruence|]. rewrite Hcount.
      destruct (_ && _); [apply wrap64_range|done].
    + apply updatePeerStates_untracked in Hp. congruence.
  - destruct (WithdrawAllPrefixes a w) as [err w'] eqn:Hrun. cbn.
    rewrite WithdrawAllPrefixes_unfold in Hrun.
    destruct (peers w !! a) as [p|] eqn:Hp; [|by injection Hrun as _ <-].
    destruct (server_ListPath (env w)) as [[stream|err'] e];
      injection Hrun as _ <-; [|done].
    intros address peer. cbn.
    destruct (decide (address = a)) as [->|Hne].
    + rewrite lookup_alter_eq, Hp. intros [= <-]. cbn.
      destruct (Hw _ _ Hp) as [Ha _].
      unfold Go.MinInt64, Go.MaxInt64. split; [done|lia].
    + rewrite lookup_alter_ne by done. apply Hw.
  - destruct (GetPeer a w) as [r w'] eqn:Hrun. cbn.
    pose proof (GetPeer_world a w) as Hsame. rewrite Hrun in Hsame.
    cbn in Hsame. by subst w'.
  - done.
Qed.

Lemma reachable_well_keyed (w : World Env) : reachable w → well_keyed w.
Proof.
  induction 1 as [w Hinit|o w _ IH].
  - intros address peer. rewrite Hinit. by rewrite lookup_empty.
  - by apply run_well_keyed.
Qed.

Lemma GetAllPeers_addresses (w : World Env) :
  well_keyed w →
  Address <$> (GetAllPeers w).1 = (map_to_list (peers w)).*1.
Proof.
  intros Hw. unfold GetAllPeers. run_M.
  assert (Hall : Forall (λ kv, Address kv.2 = kv.1) (map_to_list (peers w))).
  { apply Forall_forall. intros [a p] Hin%elem_of_map_to_list.
    by apply Hw. }
  induction Hall as [|[a p] l Hkv _ IH]; [done|].
  cbn in *. by rewrite Hkv, IH.
Qed.

(** C5, as the code has it. In every world the registry can reach, the
    snapshot of [GetAllPeers] lists no address twice and every entry is
    filed under its own address. A tracked peer stays tracked through
    every operation, and its flap count does not decrease, except that
    it is zero after a [WithdrawAllPrefixes] of that peer that returned
    no error, and zero after an [AddPeer] of its address, which files a
    new entry in place of the old one; a poll can also take a counter
    that stands at the largest [int64] around to the smallest. *)
Theorem C5_one_entry_per_address_and_flap_count_steps (w : World Env) :
  reachable w →
  NoDup (Address <$> (GetAllPeers w).1)
  ∧ (∀ address peer, peers w !! address = Some peer → Address peer = address)
  ∧ (∀ o address peer,
       peers w !! address = Some peer →
       ∃ peer',
         peers (run o w).2 !! address = Some peer'
         ∧ (FlapCount peer ≤ FlapCount peer'
            ∨ (FlapCount peer' = 0
               ∧ o = withdrawAllPrefixes address
               ∧ (WithdrawAllPrefixes address w).1 = None)
            ∨ (FlapCount peer' = 0 ∧ ∃ asn port, o = addPeer address asn port)
            ∨ (FlapCount peer = Go.MaxInt64 ∧ o = refreshFromSession))).
Proof.
  intros Hw%reachable_well_keyed. split; [|split].
  - rewrite GetAllPeers_addresses by done. apply NoDup_fst_map_to_list.
  - intros address peer Hp. by apply Hw.
  - intros o address peer Hp.
    destruct o as [a asn port| |a|a|]; unfold run; run_M.
    + destruct (AddPeer a asn port w) as [err w'] eqn:Hrun. cbn.
      pose proof (AddPeer_peers a asn port w) as Hpeers.
      rewrite Hrun in Hpeers. cbn in Hpeers. rewrite Hpeers.
      destruct (decide (address = a)) as [->|Hne].
      * rewrite lookup_insert_eq. eexists. split; [done|].
        right. right. left. split; [done|]. by exists asn, port.
      * rewrite lookup_insert_ne by done. exists peer. split; [done|]. by left.
    + destruct (updatePeerStates_flap _ _ _ Hp) as (peer' & Hp' & _ & Hcount & _).
      exists peer'. split; [done|]. rewrite Hcount.
      destruct (_ && _); [|by left].
      destruct (decide (FlapCount peer = Go.MaxInt64)) as [Hmax|Hmax].
      * right. right. right. done.
      * left. destruct (Hw _ _ Hp) as [_ Hrange].
        rewrite int64_inc_small by lia. lia.
    + destruct (WithdrawAllPrefixes a w) as [err w'] eqn:Hrun. cbn.
      rewrite WithdrawAllPrefixes_unfold in Hrun.
      destruct (peers w !! a) as [p|] eqn:Hpa.
      2:{ injection Hrun as _ <-. exists peer. split; [done|]. by left. }
      destruct (server_ListPath (env w)) as [[stream|err'] e] eqn:Hlist;
        injection Hrun as <- <-.
      2:{ exists peer. split; [done|]. by left. }
      cbn. destruct (decide (address = a)) as [->|Hne].
      * rewrite lookup_alter_eq, Hpa. eexists. split; [done|].
        right. left. split; [done|]. split; [done|].
        by rewrite WithdrawAllPrefixes_unfold, Hpa, Hlist.
      * rewrite lookup_alter_ne by done. exists peer. split; [done|]. by left.
    + destruct (GetPeer a w) as [r w'] eqn:Hrun. cbn.
      pose proof (GetPeer_world a w) as Hsame. rewrite Hrun in Hsame.
      cbn in Hsame. subst w'. exists peer. split; [done|]. by left.
    + exists peer. split; [done|]. by left.
Qed.

End RegistryInvariant.

Lemma flapped_once_reachable : Registry.reachable Sim.flapped_once.
Proof.
  unfold Sim.flapped_once. do 3 apply Registry.reachable_run.
  by apply Registry.reachable_initial.
Qed.

(** C5 on a run: after one flap, a third poll (which gets an error from
    the session engine) leaves the peer at one flap. *)
Lemma C5_flap_count_witness :
  bgp.FlapCount <$> peers Sim.flapped_once !! "10.0.0.1" = Some 1
  ∧ bgp.FlapCount
    <$> peers (Registry.run Registry.refreshFromSession Sim.flapped_once).2 !! "10.0.0.1"
    = Some 1
  ∧ NoDup (bgp.Address <$> (Monitor.GetAllPeers Sim.flapped_once).1).
Proof.
  destruct (C5_one_entry_per_address_and_flap_count_steps Sim.flapped_once
              flapped_once_reachable) as (Hnodup & _ & _).
  split; [|split]; [vm_compute; reflexivity..|exact Hnodup].
Defined.

(** C5 as stated fails on [AddPeer]: adding the address of a tracked peer
    again files a new entry in place of the old one, so the flap count
    goes from 1 back to 0 without any [WithdrawAllPrefixes]. *)
Lemma C5_counterexample_adding_again_resets_the_count :
  Registry.reachable Sim.flapped_once
  ∧ bgp.FlapCount <$> peers Sim.flapped_once !! "10.0.0.1" = Some 1
  ∧ bgp.FlapCount
    <$> peers (Registry.run (Registry.addPeer "10.0.0.1" 65001 179) Sim.flapped_once).2
        !! "10.0.0.1"
    = Some 0.
Proof.
  split; [exact flapped_once_reachable|].
  vm_compute. split; reflexivity.
Qed.

(** ** The remediation engine *)

Section EngineFacts.
Import auto Engine.
Context {Env : Type} {ext : Externals Env}.

Lemma remediateFlap_unfold peerAddress (w : World Env) :
  remediateFlap peerAddress w
  = let r := Monitor.WithdrawAllPrefixes peerAddress (after_clock w) in
    (tt, mkWorld (env r.2) (peers r.2)
           (record (flap_event (time_Now (env w)).1 peerAddress (Go.is_nil r.1))
                   (events w))).
Proof.
  unfold remediateFlap, after_clock, recordEvent. run_M.
  destruct (time_Now (env w)) as [now e]. cbn [fst snd].
  pose proof (WithdrawAllPrefixes_events peerAddress
                (mkWorld e (peers w) (events w))) as Hev.
  destruct (Monitor.WithdrawAllPrefixes _ _) as [[err|] w2];
    cbn in Hev |- *; by rewrite Hev.
Qed.

Lemma flapping_spec cfg now window peer :
  flapping cfg now window peer = true
  ↔ config.FlapThreshold cfg < bgp.FlapCount peer
    ∧ bgp.LastFlapTime peer ≠ Go.zeroTime
    ∧ Go.Sub now (bgp.LastFlapTime peer) < window.
Proof.
  unfold flapping, Go.IsZero, Go.zeroTime.
  rewrite !andb_true_iff, negb_true_iff, !Z.ltb_lt, Z.eqb_neq. done.
Qed.

Lemma RemediateRPKI_unfold prefix (w : World Env) :
  RemediateRPKI prefix w
  = (None, mkWorld (time_Now (env w)).2 (peers w)
             (record (rpki_event (time_Now (env w)).1 prefix) (events w))).
Proof.
  unfold RemediateRPKI, recordEvent. run_M.
  by destruct (time_Now (env w)) as [now e].
Qed.

(** The events one evaluation cycle records over a snapshot: one per
    flapping entry, in the order of the snapshot. *)
Lemma for_range_checkPeer cfg now window snapshot : ∀ w : World Env,
  ∃ evs,
    events (for_range snapshot (checkPeer cfg now window) w).2
    = record_all evs (events w)
    ∧ Target <$> evs
      = bgp.Address
        <$> filter (λ peer, flapping cfg now window peer = true) snapshot
    ∧ Forall (λ e, Type_ e = "bgp_flap" ∧ Reason e = "flap"
                   ∧ Action e = "withdraw_all_prefixes") evs.
Proof.
  induction snapshot as [|peer snapshot IH]; intros w.
  { exists []. done. }
  rewrite for_range_cons. unfold checkPeer at 2.
  destruct (flapping cfg now window peer) eqn:Hflap.
  - rewrite remediateFlap_unfold. cbn [snd].
    match goal with |- context [for_range _ _ ?w1] =>
      destruct (IH w1) as (evs & Hev & Htargets & Hall) end.
    cbn [events] in Hev.
    eexists (_ :: evs). split; [exact Hev|].
    rewrite filter_cons_True by done. cbn [fmap list_fmap].
    split; [by rewrite <- Htargets|]. by constructor.
  - destruct (IH w) as (evs & Hev & Htargets & Hall).
    exists evs. rewrite filter_cons_False by congruence. done.
Qed.

Lemma checkAndRemediate_unfold cfg (w : World Env) :
  checkAndRemediate cfg w
  = for_range (Monitor.GetAllPeers w).1
      (checkPeer cfg (time_Now (env w)).1 (window_of cfg)) (after_clock w).
Proof.
  unfold checkAndRemediate, Monitor.GetAllPeers, after_clock. run_M.
  by destruct (time_Now (env w)) as [now e].
Qed.

(** C1, as the code has it. An entry of the snapshot counts as flapping
    exactly when its flap count is above the threshold, its last-flap
    time is set, and less than the window has passed since. For a
    flapping entry the cycle reads the clock, calls
    [WithdrawAllPrefixes] for its address and records one event, with
    type "bgp_flap", reason "flap", action "withdraw_all_prefixes" and
    the address as target, that is successful exactly when that call
    returned no error. For any other entry it does nothing. So a whole
    cycle records one such event per flapping entry of the snapshot, in
    the order of the snapshot, and no other event; and when the feature
    is disabled a tick leaves the world as it is. *)
Theorem C1_flap_remediation (cfg : config.AutoConfig) (w : World Env) :
  (∀ now window peer,
     flapping cfg now window peer = true
     ↔ config.FlapThreshold cfg < bgp.FlapCount peer
       ∧ bgp.LastFlapTime peer ≠ Go.zeroTime
       ∧ Go.Sub now (bgp.LastFlapTime peer) < window)
  ∧ (∀ now window peer,
       checkPeer cfg now window peer w
       = if flapping cfg now window peer
         then
           let r := Monitor.WithdrawAllPrefixes (bgp.Address peer) (after_clock w) in
           (tt, mkWorld (env r.2) (peers r.2)
                  (record (flap_event (time_Now (env w)).1 (bgp.Address peer)
                                      (Go.is_nil r.1))
                          (events w)))
         else (tt, w))
  ∧ (∃ evs,
       events (checkAndRemediate cfg w).2 = record_all evs (events w)
       ∧ Target <$> evs
         = bgp.Address
           <$> filter (λ peer, flapping cfg (time_Now (env w)).1 (window_of cfg) peer = true)
                      (Monitor.GetAllPeers w).1
       ∧ Forall (λ e, Type_ e = "bgp_flap" ∧ Reason e = "flap"
                      ∧ Action e = "withdraw_all_prefixes") evs)
  ∧ (config.Enabled cfg = false → tick cfg w = (tt, w)).
Proof.
  split; [|split; [|split]].
  - intros now window peer. apply flapping_spec.
  - intros now window peer. unfold checkPeer.
    destruct (flapping cfg now window peer); [|done].
    apply remediateFlap_unfold.
  - rewrite checkAndRemediate_unfold.
    destruct (for_range_checkPeer cfg (time_Now (env w)).1 (window_of cfg)
                (Monitor.GetAllPeers w).1 (after_clock w))
      as (evs & Hev & Htargets & Hall).
    by exists evs.
  - intros Hoff. unfold tick. by rewrite Hoff.
Qed.

End EngineFacts.

(** C1 on a run with threshold 3 and a window of 300 seconds: the cycle
    records one event, for the peer. *)
Lemma C1_flap_remediation_witness :
  ∃ evs,
    events (Engine.checkAndRemediate Sim.cfg Sim.flapping_world).2 = Engine.record_all evs []
    ∧ auto.Target <$> evs = ["10.0.0.1"]
    ∧ Forall (λ e, auto.Type_ e = "bgp_flap" ∧ auto.Reason e = "flap"
                   ∧ auto.Action e = "withdraw_all_prefixes") evs.
Proof.
  destruct (C1_flap_remediation Sim.cfg Sim.flapping_world)
    as (_ & _ & (evs & Hev & Htargets & Hall) & _).
  exists evs. split; [exact Hev|]. split; [|exact Hall].
  rewrite Htargets. vm_compute. reflexivity.
Defined.

(** C1 as stated fails on the type of the event: the cycle records it
    with type "bgp_flap", not "flap". *)
Lemma C1_counterexample_event_type_is_bgp_flap :
  auto.Type_ <$> events (Engine.checkAndRemediate Sim.cfg Sim.flapping_world).2
  = ["bgp_flap"]
  ∧ auto.Type_ <$> events (Engine.checkAndRemediate Sim.cfg Sim.flapping_world).2
    ≠ ["flap"].
Proof. vm_compute. split; [reflexivity|discriminate]. Qed.

Section Manual.
Import auto Engine.
Context {Env : Type} {ext : Externals Env}.

(** C2, as the code has it. [RemediateManual] reads the clock; when
    [peer] is not empty it calls [WithdrawAllPrefixes] for it, and when
    that call fails it records the manual event as failed, returns the
    error, wrapped, and does nothing more. Otherwise, when [prefix] is
    not empty, it runs [RemediateRPKI], which records an event of its
    own, of type "rpki_invalid"; then it records the manual event as
    successful and returns no error. So every call records exactly one
    event of type "manual", last, whose success flag says whether the
    call returned no error, and a call that reaches the RPKI path
    records the event of that path before it. *)
Theorem C2_manual_remediation (peer prefix reason : string) (w : World Env) :
  let now := (time_Now (env w)).1 in
  let r := if bool_decide (peer ≠ "")
           then Monitor.WithdrawAllPrefixes peer (after_clock w)
           else (None, after_clock w) in
  RemediateManual peer prefix reason w
  = match r.1 with
    | Some err =>
      (Some ("failed to remediate peer " +:+ peer +:+ ": " +:+ err),
       mkWorld (env r.2) (peers r.2)
         (record (manual_event now peer reason false) (events w)))
    | None =>
      if bool_decide (prefix ≠ "")
      then (None,
            mkWorld (time_Now (env r.2)).2 (peers r.2)
              (record (manual_event now peer reason true)
                 (record (rpki_event (time_Now (env r.2)).1 prefix) (events w))))
      else (None,
            mkWorld (env r.2) (peers r.2)
              (record (manual_event now peer reason true) (events w)))
    end
  ∧ ∃ earlier,
      events (RemediateManual peer prefix reason w).2
      = record (manual_event now peer reason
                  (Go.is_nil (RemediateManual peer prefix reason w).1))
               earlier
      ∧ (earlier = events w
         ∨ ∃ ts, prefix ≠ "" ∧ earlier = record (rpki_event ts prefix) (events w)).
Proof.
  intros now r.
  assert (Hrun : RemediateManual peer prefix reason w
    = match r.1 with
      | Some err =>
        (Some ("failed to remediate peer " +:+ peer +:+ ": " +:+ err),
         mkWorld (env r.2) (peers r.2)
           (record (manual_event now peer reason false) (events w)))
      | None =>
        if bool_decide (prefix ≠ "")
        then (None,
              mkWorld (time_Now (env r.2)).2 (peers r.2)
                (record (manual_event now peer reason true)
                   (record (rpki_event (time_Now (env r.2)).1 prefix) (events w))))
        else (None,
              mkWorld (env r.2) (peers r.2)
                (record (manual_event now peer reason true) (events w)))
      end).
  { subst now r. unfold RemediateManual, after_clock, recordEvent. run_M.
    destruct (time_Now (env w)) as [now e]. cbn [fst snd].
    destruct (bool_decide (peer ≠ "")).
    - pose proof (WithdrawAllPrefixes_events peer
                    (mkWorld e (peers w) (events w))) as Hev.
      destruct (Monitor.WithdrawAllPrefixes _ _) as [[err|] w2];
        cbn in Hev |- *; [by rewrite Hev|].
      destruct (bool_decide (prefix ≠ "")); [|by rewrite Hev].
      rewrite RemediateRPKI_unfold. cbn. by rewrite Hev.
    - cbn. destruct (bool_decide (prefix ≠ "")); [|done].
      rewrite RemediateRPKI_unfold. done. }
  split; [exact Hrun|]. rewrite Hrun.
  destruct r.1 as [err|]; cbn.
  - exists (events w). auto.
  - destruct (bool_decide (prefix ≠ "")) eqn:Hprefix; cbn.
    + eexists. split; [done|]. right. eexists. split; [|done].
      by apply bool_decide_eq_true in Hprefix.
    + exists (events w). auto.
Qed.

End Manual.

(** C2 as stated fails when a prefix is given: the call records two
    events, the one of the RPKI path and the manual one. *)
Lemma C2_counterexample_prefix_records_two_events :
  events (Engine.RemediateManual "" "203.0.113.0/24" "rpki"
            (mkWorld (Sim.mkEnv Sim.noon [] [] false false) ∅ [])).2
  = [Engine.rpki_event (Sim.noon + 1) "203.0.113.0/24";
     Engine.manual_event Sim.noon "" "rpki" true].
Proof. vm_compute. reflexivity. Qed.

(** C2 on the run of the specification: peer "10.0.0.1", no prefix,
    reason "test", the Monitor.withdrawal accepted. *)
Lemma C2_manual_remediation_witness :
  Engine.RemediateManual "10.0.0.1" "" "test" Sim.flapping_world
  = (None,
     mkWorld (Sim.mkEnv (Sim.noon + 1) [] [] false false)
       {["10.0.0.1" := Sim.peer "10.0.0.1" 0 (Sim.noon - 10 * Go.Second) false]}
       [Engine.manual_event Sim.noon "10.0.0.1" "test" true]).
Proof.
  destruct (C2_manual_remediation "10.0.0.1" "" "test" Sim.flapping_world) as [-> _].
  vm_compute. reflexivity.
Defined.

(** * Further properties *)

(** ** The validator: which calls return, and what the counter counts *)

Section ValidatorMore.
Import mpls Validation.

(** X1. [ValidatePacket] returns exactly on the packets that have no MPLS
    layer or whose outermost label is out of range, has TTL 0 or is the
    bottom of the stack; on every other packet no number of iterations
    ends the loop. When it returns a stack, the stack holds no label or
    the outermost label alone. A packet without MPLS layer gets the error
    "no MPLS layer found" and no stack, and is not counted as corrupt. *)
Theorem X1_ValidatePacket_returns_iff (v : Validator) (packet : gopacket.Packet) :
  ((∃ fuel r, ValidatePacket fuel v packet = Some r)
   ↔ match gopacket.Layer_MPLS packet with
     | None => True
     | Some first =>
       out_of_range (layers.Label first) = true
       ∨ layers.TTL first = 0%N
       ∨ layers.BottomOfStack first = true
     end)
  ∧ (∀ fuel s err v',
       ValidatePacket fuel v packet = Some ((Some s, err), v') →
       Labels s = []
       ∨ ∃ first, gopacket.Layer_MPLS packet = Some first
                  ∧ Labels s = [label_of first])
  ∧ (gopacket.Layer_MPLS packet = None →
     ∀ fuel,
       ValidatePacket fuel v packet = Some ((None, Some "no MPLS layer found"), v)).
Proof.
  unfold ValidatePacket.
  destruct (gopacket.Layer_MPLS packet) as [first|] eqn:Hfirst.
  2:{ split; [|split]; [|done..]. split; [done|]. intros _. by exists 0%nat, (None, Some "no MPLS layer found", v). }
  split; [|split]; [| |done].
  - split.
    + intros (fuel & r & Hr).
      destruct (out_of_range (layers.Label first)) eqn:Hrange; [by left|].
      destruct (N.eq_dec (layers.TTL first) 0%N) as [?|Httl]; [by right; left|].
      destruct (layers.BottomOfStack first) eqn:Hbos; [by right; right|].
      by rewrite (ValidatePacket_loop_stuck _ _ Hfirst Hrange Httl Hbos) in Hr.
    + intros Hends. exists 1%nat. cbn [ValidatePacket_loop label_of Value TTL BoS].
      destruct (out_of_range (layers.Label first)); [by eexists|].
      destruct (N.eqb_spec (layers.TTL first) 0); [by eexists|].
      destruct Hends as [?|[?|Hbos]]; [done..|]. rewrite Hbos. by eexists.
  - intros [|fuel] s err v'; [done|].
    cbn [ValidatePacket_loop label_of Value TTL BoS].
    destruct (out_of_range (layers.Label first)) eqn:Hrange.
    { intros [= <- _ _]. by left. }
    destruct (N.eqb_spec (layers.TTL first) 0) as [Httl|Httl].
    { intros [= <- _ _]. by left. }
    destruct (layers.BottomOfStack first) eqn:Hbos.
    { intros [= <- _ _]. right. by exists first. }
    rewrite Hfirst.
    by rewrite (ValidatePacket_loop_stuck _ _ Hfirst Hrange Httl Hbos).
Qed.

Lemma ValidateLabelStack_range_counts labels : ∀ i v,
  (ValidateLabelStack_range i labels v).2
  = if corrupt labels then recordCorruption v else v.
Proof.
  induction labels as [|x labels IH]; intros i v; [done|].
  cbn [ValidateLabelStack_range corrupt existsb].
  destruct (out_of_range x); [done|]. apply IH.
Qed.

Lemma ValidateLabelStack_counts v labels :
  (ValidateLabelStack v labels).2
  = if corrupt labels then recordCorruption v else v.
Proof.
  unfold ValidateLabelStack. destruct labels as [|x labels]; [done|].
  cbn [length Nat.eqb]. apply ValidateLabelStack_range_counts.
Qed.

Lemma validate_all_counts stacks : ∀ v,
  corruptionEvents (validate_all stacks v)
  = Nat.iter (length (filter (λ labels, corrupt labels = true) stacks))
             Go.int64_inc (corruptionEvents v).
Proof.
  induction stacks as [|labels stacks IH]; intros v; [done|].
  change (validate_all (labels :: stacks) v)
    with (validate_all stacks (ValidateLabelStack v labels).2).
  rewrite IH, ValidateLabelStack_counts.
  destruct (corrupt labels) eqn:Hc.
  - rewrite filter_cons_True by done. cbn [length].
    by rewrite Nat.iter_succ_r.
  - by rewrite filter_cons_False by congruence.
Qed.

(** X2. After [ResetCorruptionCount], the counter that
    [GetCorruptionCount] reads after any sequence of [ValidateLabelStack]
    calls is the number of calls whose list held a value out of range.
    A call on the empty list fails, yet is not counted; a call fails
    exactly when its list is empty or holds a value out of range. *)
Theorem X2_corruption_count_is_the_number_of_corrupt_lists
    (stacks : list (list N)) (v : Validator) :
  Z.of_nat (length stacks) ≤ Go.MaxInt64 →
  GetCorruptionCount (validate_all stacks (ResetCorruptionCount v))
  = Z.of_nat (length (filter (λ labels, corrupt labels = true) stacks))
  ∧ (ValidateLabelStack v []).2 = v
  ∧ (∀ labels,
       (ValidateLabelStack v labels).1 = None
       ↔ labels ≠ [] ∧ corrupt labels = false).
Proof.
  intros Hlen. split; [|split].
  - unfold GetCorruptionCount. rewrite validate_all_counts.
    cbn [ResetCorruptionCount corruptionEvents].
    pose proof (length_filter (λ labels, corrupt labels = true) stacks) as Hle.
    rewrite iter_int64_inc_small; unfold Go.MinInt64 in *; lia.
  - done.
  - intros labels. unfold ValidateLabelStack.
    destruct labels as [|x labels]; cbn [length Nat.eqb].
    { split; [done|]. by intros [? _]. }
    split.
    + intros Hnil. split; [done|].
      destruct (corrupt (x :: labels)) eqn:Hc; [|done].
      apply existsb_exists in Hc as (y & Hin & Hy).
      apply list_elem_of_In, list_elem_of_split in Hin as (pre & post & Heq).
      revert Hnil. rewrite Heq. clear Heq. generalize 0%nat.
      induction pre as [|z pre IH]; intros i; cbn [app ValidateLabelStack_range].
      * by rewrite Hy.
      * destruct (out_of_range z); [done|]. apply IH.
    + intros [_ Hc]. rewrite ValidateLabelStack_range_ok; [done|].
      apply Forall_forall. intros y Hin. apply out_of_range_spec.
      destruct (out_of_range y) eqn:Hy; [|done].
      assert (corrupt (x :: labels) = true); [|congruence].
      apply existsb_exists. exists y. by rewrite <- list_elem_of_In.
Qed.

End ValidatorMore.

(** X2 on a run: of four lists, the two with a value out of range are
    counted; the empty one is not. *)
Lemma X2_corruption_count_witness :
  mpls.GetCorruptionCount
    (Validation.validate_all [[100; 200]; [3]; []; [16; 1048576]]%N
       (mpls.ResetCorruptionCount mpls.NewValidator))
  = 2.
Proof.
  destruct (X2_corruption_count_is_the_number_of_corrupt_lists
              [[100; 200]; [3]; []; [16; 1048576]]%N mpls.NewValidator) as [-> _].
  - vm_compute. discriminate.
  - reflexivity.
Defined.

(** ** The topology: what a packet adds, and what never changes *)

Section TopologyMore.
Import ospf Parser.

Lemma processOSPFPacket_insert layer (t : Routers) :
  processOSPFPacket layer t
  = if announces layer
    then <[OSPF_RouterID layer :=
             foldl add_link (links_of t (OSPF_RouterID layer)) (advertised layer)]> t
    else t.
Proof.
  unfold processOSPFPacket, announces, advertised.
  destruct (Type_ layer); try apply ensureRouter_insert; try done.
  - destruct (Hello layer); [apply ensureRouter_insert|done].
  - destruct (LSU layer) as [[lsas]|]; [|done]. cbn [LSAs].
    destruct lsas as [|lsa lsas]; [done|].
    by rewrite merge_all_insert.
Qed.

(** The links a list of advertisements adds come after the links there
    were, and each is the link of an advertised remote router. *)
Lemma add_all_app remotes : ∀ links,
  ∃ more,
    foldl add_link links remotes = links ++ more
    ∧ Forall (λ l, l ∈ new_link <$> remotes) more
    ∧ (length more ≤ length remotes)%nat.
Proof.
  induction remotes as [|a remotes IH]; intros links.
  { exists []. by rewrite app_nil_r. }
  cbn [foldl]. destruct (IH (add_link links a)) as (more & -> & Hmore & Hlen).
  assert (Hweaken : Forall (λ l, l ∈ new_link <$> a :: remotes) more).
  { eapply Forall_impl; [exact Hmore|]. intros l Hl. cbn. by right. }
  unfold add_link. destruct (found_in links a).
  - exists more. cbn [length]. split; [done|]. split; [done|lia].
  - exists (new_link a :: more). rewrite <- app_assoc. split; [done|].
    split; [|cbn [length]; lia].
    constructor; [|done]. cbn. by left.
Qed.

Lemma processOSPFPacket_lookup_other layer (t : Routers) routerID :
  routerID ≠ OSPF_RouterID layer →
  processOSPFPacket layer t !! routerID = t !! routerID.
Proof.
  intros Hne. rewrite processOSPFPacket_insert.
  destruct (announces layer); [|done]. by rewrite lookup_insert_ne.
Qed.

Lemma links_of_Some (t : Routers) routerID links :
  t !! routerID = Some links → links_of t routerID = links.
Proof. unfold links_of. by intros ->. Qed.

Lemma links_of_None (t : Routers) routerID :
  t !! routerID = None → links_of t routerID = [].
Proof. unfold links_of. by intros ->. Qed.

Lemma processOSPFPacket_appends layer (t : Routers) routerID links :
  t !! routerID = Some links →
  ∃ more,
    processOSPFPacket layer t !! routerID = Some (links ++ more)
    ∧ Forall (λ l, l ∈ new_link <$> advertised layer) more
    ∧ (length more ≤ length (advertised layer))%nat
    ∧ (routerID ≠ OSPF_RouterID layer → more = []).
Proof.
  intros Hl. destruct (decide (routerID = OSPF_RouterID layer)) as [->|Hne].
  - rewrite processOSPFPacket_insert, (links_of_Some _ _ _ Hl).
    destruct (add_all_app (advertised layer) links) as (more & Hadd & Hmore & Hlen).
    destruct (announces layer) eqn:Hann.
    + exists more. rewrite lookup_insert_eq, Hadd. done.
    + exists []. rewrite app_nil_r. split; [done|]. split; [done|].
      split; [cbn; lia|done].
  - exists []. rewrite processOSPFPacket_lookup_other, app_nil_r by done.
    split; [done|]. split; [done|]. split; [cbn; lia|done].
Qed.

(** X3. A packet never removes a router and never removes, changes or
    reorders a link: the links a router had are still there, in front of
    the links the packet added, which are links of remote routers the
    packet advertises (at most one per advertisement); and only the entry
    of the router the packet comes from can change. *)
Theorem X3_processOSPFPacket_only_appends
    (layer : OSPF) (t : Routers) (routerID : N) (links : list Link) :
  t !! routerID = Some links →
  ∃ more,
    processOSPFPacket layer t !! routerID = Some (links ++ more)
    ∧ Forall (λ l, l ∈ new_link <$> advertised layer) more
    ∧ (length more ≤ length (advertised layer))%nat
    ∧ (routerID ≠ OSPF_RouterID layer → more = []).
Proof. apply processOSPFPacket_appends. Qed.

(** X4. The routers of the topology after a packet are those before,
    and the router the packet comes from when the packet is a Hello with
    a body, a database description, a link-state request, a link-state
    acknowledgment, or a link-state update with at least one
    advertisement. Any other packet (a Hello without body, an update
    without body or without advertisement, an unknown type) leaves the
    topology as it is. *)
Theorem X4_routers_after_a_packet (layer : OSPF) (t : Routers) :
  dom (processOSPFPacket layer t)
  = (if announces layer then {[OSPF_RouterID layer]} ∪ dom t else dom t)
  ∧ (announces layer = false → processOSPFPacket layer t = t)
  ∧ (announces layer = true
     ↔ match Type_ layer with
       | OSPFHello => Hello layer ≠ None
       | OSPFLinkStateUpdate => ∃ lsu, LSU layer = Some lsu ∧ LSAs lsu ≠ []
       | OSPFTypeUnknown _ => False
       | _ => True
       end).
Proof.
  rewrite processOSPFPacket_insert. split; [|split].
  - destruct (announces layer); [|done]. by rewrite dom_insert_L.
  - by intros ->.
  - unfold announces, advertised. destruct (Type_ layer); try done.
    + by rewrite bool_decide_eq_true.
    + rewrite bool_decide_eq_true. destruct (LSU layer) as [[lsas]|].
      * cbn [LSAs]. split.
        -- intros Hne. exists {| LSAs := lsas |}. split; [done|].
           cbn. by intros ->.
        -- intros (lsu & [= <-] & Hne). cbn in Hne. by destruct lsas.
      * split; [done|]. by intros (lsu & ? & _).
Qed.

Lemma remotes_after layer (t : Routers) routerID a :
  a ∈ remotes (processOSPFPacket layer t) routerID
  ↔ a ∈ remotes t routerID
    ∨ (routerID = OSPF_RouterID layer ∧ a ∈ advertised layer).
Proof.
  unfold remotes. rewrite processOSPFPacket_insert.
  destruct (announces layer) eqn:Hann.
  - destruct (decide (routerID = OSPF_RouterID layer)) as [->|Hne].
    + rewrite links_of_insert. split.
      * intros Ha.
        destruct (decide (a ∈ advertised layer)) as [?|Hnot]; [by right|]. left.
        destruct (add_all_app (advertised layer)
                    (links_of t (OSPF_RouterID layer))) as (more & Hadd & Hmore & _).
        rewrite Hadd, fmap_app, elem_of_app in Ha. destruct Ha as [?|Ha]; [done|].
        apply list_elem_of_fmap in Ha as (l & -> & Hl).
        rewrite Forall_forall in Hmore. apply Hmore in Hl.
        apply list_elem_of_fmap in Hl as (b & -> & Hb). done.
      * intros [Ha|[_ Ha]]; [by apply add_all_keeps|by apply add_all_has].
    + unfold links_of. rewrite lookup_insert_ne by done. split; [auto|].
      intros [?|[? _]]; done.
  - split; [auto|]. intros [?|[_ Ha]]; [done|].
    revert Hann Ha. unfold announces, advertised.
    destruct (Type_ layer); try (by intros _ ?%elem_of_nil).
    destruct (LSU layer); [|by intros _ ?%elem_of_nil].
    intros Hdec%bool_decide_eq_false. destruct (LSAs _); [|by destruct Hdec].
    by intros ?%elem_of_nil.
Qed.

(** X5. After a packet, a router has a link to a remote router exactly
    when it had one before or the packet comes from that router and
    advertises the remote router: a link-state update adds exactly the
    advertised remote routers that were missing, and no other packet
    adds a link. *)
Theorem X5_links_after_a_packet (layer : OSPF) (t : Routers) (routerID a : N) :
  (a ∈ remotes (processOSPFPacket layer t) routerID
   ↔ a ∈ remotes t routerID
     ∨ (routerID = OSPF_RouterID layer ∧ a ∈ advertised layer))
  ∧ (Type_ layer ≠ OSPFLinkStateUpdate →
     links_of (processOSPFPacket layer t) routerID = links_of t routerID).
Proof.
  split; [apply remotes_after|].
  intros Htype. rewrite processOSPFPacket_insert.
  assert (advertised layer = []) as ->.
  { unfold advertised. by destruct (Type_ layer). }
  destruct (announces layer); [|done]. cbn [foldl].
  destruct (decide (routerID = OSPF_RouterID layer)) as [->|Hne].
  - by rewrite links_of_insert.
  - unfold links_of. by rewrite lookup_insert_ne.
Qed.

Lemma processOSPFPacket_uniform layer (t : Routers) :
  uniform t → uniform (processOSPFPacket layer t).
Proof.
  intros Ht routerID links' Hl'.
  destruct (t !! routerID) as [links|] eqn:Hl.
  - destruct (processOSPFPacket_appends layer _ _ _ Hl) as (more & Hl'' & Hmore & _).
    rewrite Hl'' in Hl'. injection Hl' as <-.
    apply Forall_app. split; [by apply (Ht _ _ Hl)|].
    eapply Forall_impl; [exact Hmore|].
    intros l (a & -> & _)%list_elem_of_fmap. done.
  - revert Hl'. rewrite processOSPFPacket_insert.
    destruct (announces layer); [|congruence].
    destruct (decide (routerID = OSPF_RouterID layer)) as [->|Hne].
    + rewrite lookup_insert_eq. intros [= <-].
      rewrite (links_of_None _ _ Hl).
      destruct (add_all_app (advertised layer) []) as (more & -> & Hmore & _).
      eapply Forall_impl; [exact Hmore|].
      intros l (a & -> & _)%list_elem_of_fmap. done.
    + rewrite lookup_insert_ne by done. congruence.
Qed.

Lemma processPackets_cons packet packets (t : Routers) :
  processPackets (packet :: packets) t
  = processPackets packets (processPacket t packet).
Proof. by destruct packet. Qed.

Lemma processPackets_keeps (P : Routers → Prop) :
  (∀ layer t, P t → P (processOSPFPacket layer t)) →
  ∀ packets t, P t → P (processPackets packets t).
Proof.
  intros Hstep. induction packets as [|[layer|] packets IH]; intros t Ht; [done|..].
  - rewrite processPackets_cons. apply IH. by apply Hstep.
  - rewrite processPackets_cons. by apply IH.
Qed.

Lemma NewParser_uniform : uniform NewParser.
Proof. intros routerID links. unfold NewParser. by rewrite lookup_empty. Qed.

Lemma NewParser_deduplicated : deduplicated NewParser.
Proof. intros routerID links. unfold NewParser. by rewrite lookup_empty. Qed.

Lemma links_of_Forall (P : Link → Prop) (t : Routers) routerID :
  (∀ links, t !! routerID = Some links → Forall P links) →
  Forall P (links_of t routerID).
Proof.
  intros Ht. unfold links_of. destruct (t !! routerID) as [links|]; cbn; auto.
Qed.

(** X6. Whatever packets a parser has processed, every link of its
    topology has cost 100 and state "Up": the cost an advertisement
    carries is never stored, and no link is ever marked down. *)
Theorem X6_every_link_has_cost_100_and_is_up
    (packets : list (option OSPF)) (routerID : N) :
  Forall (λ l, Cost l = 100%N ∧ State l = "Up")
    (links_of (processPackets packets NewParser) routerID).
Proof.
  apply links_of_Forall. intros links Hl.
  pose proof (processPackets_keeps uniform processOSPFPacket_uniform
                packets _ NewParser_uniform _ _ Hl) as Hu.
  eapply Forall_impl; [exact Hu|]. by intros l ->.
Qed.

Lemma remotes_NoDup (t : Routers) routerID :
  deduplicated t → NoDup (remotes t routerID).
Proof.
  intros Ht. unfold remotes, links_of.
  destruct (t !! routerID) as [links|] eqn:Hl; cbn; [by apply (Ht _ _ Hl)|].
  constructor.
Qed.

Lemma links_of_uniform (t : Routers) routerID :
  uniform t → links_of t routerID = new_link <$> remotes t routerID.
Proof.
  intros Ht. unfold remotes.
  assert (Hall : Forall (λ l, l = new_link (RemoteRouterID l)) (links_of t routerID))
    by (apply links_of_Forall, Ht).
  induction Hall as [|l links Hl _ IH]; [done|].
  cbn. by rewrite <- Hl, <- IH.
Qed.

(** X7. The order in which two packets are processed does not matter for
    what the topology holds: either order gives the same routers, and
    every router the same links, up to the order of the links in its
    list. *)
Theorem X7_processing_order_only_reorders_links
    (packets : list (option OSPF)) (p q : OSPF) (routerID : N) :
  let t := processPackets packets NewParser in
  dom (processOSPFPacket p (processOSPFPacket q t))
  = dom (processOSPFPacket q (processOSPFPacket p t))
  ∧ links_of (processOSPFPacket p (processOSPFPacket q t)) routerID
    ≡ₚ links_of (processOSPFPacket q (processOSPFPacket p t)) routerID.
Proof.
  intros t.
  assert (Hu : uniform t)
    by apply (processPackets_keeps uniform processOSPFPacket_uniform), NewParser_uniform.
  assert (Hd : deduplicated t)
    by apply (processPackets_keeps deduplicated processOSPFPacket_deduplicated),
         NewParser_deduplicated.
  split.
  - rewrite !processOSPFPacket_insert.
    destruct (announces p), (announces q); rewrite ?dom_insert_L; try done.
    apply set_eq. intros x. rewrite !elem_of_union. tauto.
  - rewrite !links_of_uniform by by do 2 apply processOSPFPacket_uniform.
    apply fmap_Permutation, NoDup_Permutation.
    + apply remotes_NoDup. by do 2 apply processOSPFPacket_deduplicated.
    + apply remotes_NoDup. by do 2 apply processOSPFPacket_deduplicated.
    + intros a. rewrite !remotes_after. tauto.
Qed.

(** A packet is absorbed by a topology it would not change; it stays
    absorbed whatever is processed afterwards. *)
Lemma absorbed_iff layer (t : Routers) :
  processOSPFPacket layer t = t
  ↔ announces layer = false
    ∨ ∃ links, t !! OSPF_RouterID layer = Some links
               ∧ ∀ a, a ∈ advertised layer → a ∈ RemoteRouterID <$> links.
Proof.
  rewrite processOSPFPacket_insert.
  destruct (announces layer); [|by split; [left|]].
  split.
  - intros Heq. right.
    assert (Hl : t !! OSPF_RouterID layer
                 = Some (foldl add_link (links_of t (OSPF_RouterID layer))
                           (advertised layer)))
      by by rewrite <- Heq at 1; rewrite lookup_insert_eq.
    eexists. split; [exact Hl|]. intros a Ha. by apply add_all_has.
  - intros [?|(links & Hl & Hknown)]; [done|].
    rewrite (links_of_Some _ _ _ Hl), add_all_known by done.
    by apply insert_id.
Qed.

Lemma absorbed_stays layer other (t : Routers) :
  processOSPFPacket layer t = t →
  processOSPFPacket layer (processOSPFPacket other t) = processOSPFPacket other t.
Proof.
  rewrite !absorbed_iff. intros [?|(links & Hl & Hknown)]; [by left|]. right.
  destruct (processOSPFPacket_appends other _ _ _ Hl) as (more & Hl' & _).
  eexists. split; [exact Hl'|]. intros a Ha.
  rewrite fmap_app, elem_of_app. left. by apply Hknown.
Qed.

Lemma absorbed_through packets : ∀ (t : Routers) packet,
  absorbed t packet → absorbed (processPackets packets t) packet.
Proof.
  induction packets as [|other packets IH]; intros t packet Hp; [done|].
  rewrite processPackets_cons. apply IH.
  destruct packet as [layer|]; [|done]. destruct other as [o|]; [|done].
  by apply absorbed_stays.
Qed.

Lemma processPackets_absorbs packets : ∀ t : Routers,
  Forall (absorbed (processPackets packets t)) packets.
Proof.
  induction packets as [|packet packets IH]; intros t; [done|].
  rewrite processPackets_cons. constructor; [|apply IH].
  apply absorbed_through. destruct packet as [layer|]; [|done].
  apply processOSPFPacket_idem.
Qed.

Lemma processPackets_absorbed packets (t : Routers) :
  Forall (absorbed t) packets → processPackets packets t = t.
Proof.
  induction 1 as [|packet packets Hp _ IH]; [done|].
  rewrite processPackets_cons. unfold absorbed in Hp. by rewrite Hp.
Qed.

(** X8. Processing a capture a second time changes nothing: after the
    packets of a capture have been processed, in whatever topology,
    processing the same packets again leaves the topology as it is.
    Packets without an OSPF layer are passed over, and a capture file
    that cannot be opened gives an error and leaves the topology
    untouched. *)
Theorem X8_replaying_a_capture_changes_nothing
    (packets : list (option OSPF)) (t : Routers) :
  processPackets packets (processPackets packets t) = processPackets packets t
  ∧ processPackets (filter is_Some packets) t = processPackets packets t
  ∧ (∀ err, ParsePCAP (inr err) t = (Some ("error opening pcap file: " +:+ err), t))
  ∧ (ParsePCAP (inl packets) (ParsePCAP (inl packets) t).2
     = ParsePCAP (inl packets) t).
Proof.
  assert (Hreplay : processPackets packets (processPackets packets t)
                    = processPackets packets t)
    by apply processPackets_absorbed, processPackets_absorbs.
  split; [done|]. split; [|split; [done|]].
  - clear Hreplay. revert t.
    induction packets as [|[layer|] packets IH]; intros t; [done|..].
    + rewrite filter_cons_True by done. rewrite !processPackets_cons. apply IH.
    + rewrite filter_cons_False by by intros [? ?]. rewrite processPackets_cons.
      apply IH.
  - cbn. by rewrite Hreplay.
Qed.

End TopologyMore.

(** X3 on a run: router 1, with a link to router 2, hears of routers 2
    and 3; the link to 2 stays in front of what is added. *)
Lemma X3_only_appends_witness :
  let layer := ospf.lsu_packet 1 [2; 3]%N in
  ∃ more,
    ospf.processOSPFPacket layer {[1%N := [ospf.new_link 2]]} !! 1%N
    = Some ([ospf.new_link 2] ++ more)
    ∧ Forall (λ l, l ∈ ospf.new_link <$> Parser.advertised layer) more
    ∧ (length more ≤ length (Parser.advertised layer))%nat
    ∧ (1%N ≠ ospf.OSPF_RouterID layer → more = []).
Proof.
  apply X3_processOSPFPacket_only_appends. vm_compute. reflexivity.
Defined.

(** ** The registry: lookups, the tracked set, the session label *)

Section RegistryMore.
Import bgp Monitor Registry.
Context {Env : Type} {ext : Externals Env}.

Lemma AddPeer_unfold address asn port (w : World Env) :
  AddPeer address asn port w
  = (match (server_AddPeer address asn port (env w)).1 with
     | Some err => Some ("failed to add peer " +:+ address +:+ ": " +:+ err)
     | None => None
     end,
     mkWorld (server_AddPeer address asn port (env w)).2
       (<[address := fresh_peer address asn]> (peers w)) (events w)).
Proof.
  unfold AddPeer. run_M.
  by destruct (server_AddPeer address asn port (env w)) as [[err|] e].
Qed.

(** X9. After [AddPeer] the address is tracked, whatever the session
    engine answered: [GetPeer] returns a peer in state "Idle", not
    established, with no prefix and no flap. The error of [AddPeer] is
    the session engine's, wrapped; the other peers and the ledger are
    untouched. *)
Theorem X9_an_added_peer_is_tracked_even_when_refused
    (address : string) (asn port : N) (w : World Env) :
  let r := AddPeer address asn port w in
  GetPeer address r.2
  = ((Some {| Address := address; ASN := asn; State := "Idle";
              PrefixCount := 0; FlapCount := 0;
              LastFlapTime := Go.zeroTime; Established := false |}, None), r.2)
  ∧ r.1 = match (server_AddPeer address asn port (env w)).1 with
          | Some err => Some ("failed to add peer " +:+ address +:+ ": " +:+ err)
          | None => None
          end
  ∧ events r.2 = events w
  ∧ (∀ other, other ≠ address → peers r.2 !! other = peers w !! other).
Proof.
  intros r. subst r. rewrite AddPeer_unfold. cbn [fst snd].
  split; [|split; [done|split; [done|]]].
  - unfold GetPeer. run_M. by rewrite lookup_insert_eq.
  - intros other Hne. cbn. by rewrite lookup_insert_ne.
Qed.

(** X10. [GetPeer] and [GetAllPeers] change nothing. [GetPeer] fails
    with "peer ... not found" exactly on the addresses that are not
    tracked and returns the entry otherwise; the snapshot of
    [GetAllPeers] has one element per tracked address, and a peer is in
    it exactly when [GetPeer] returns it for some address. *)
Theorem X10_lookups_agree (w : World Env) :
  (∀ address,
     GetPeer address w
     = (match peers w !! address with
        | Some peer => (Some peer, None)
        | None => (None, Some ("peer " +:+ address +:+ " not found"))
        end, w))
  ∧ (GetAllPeers w).2 = w
  ∧ length (GetAllPeers w).1 = size (peers w)
  ∧ (∀ peer,
       peer ∈ (GetAllPeers w).1
       ↔ ∃ address, (GetPeer address w).1 = (Some peer, None)).
Proof.
  split; [|split; [done|split]].
  - intros address. unfold GetPeer. run_M. by destruct (peers w !! address).
  - unfold GetAllPeers. run_M. by rewrite length_fmap, length_map_to_list.
  - intros peer. unfold GetAllPeers, GetPeer. run_M. split.
    + intros ([address p] & -> & Hin%elem_of_map_to_list)%list_elem_of_fmap.
      exists address. by rewrite Hin.
    + intros (address & Hget). destruct (peers w !! address) as [p|] eqn:Hp; [|done].
      injection Hget as ->. apply list_elem_of_fmap. exists (address, peer).
      split; [done|]. by apply elem_of_map_to_list.
Qed.

Lemma range_events keys : ∀ w : World Env,
  events (for_range keys updatePeerState w).2 = events w.
Proof.
  induction keys as [|k keys IH]; intros w; [done|].
  rewrite for_range_cons, IH, updatePeerState_unfold.
  destruct (server_GetPeer k (env w)) as [[resp|err] e]; [|done].
  destruct (peers w !! k) as [peer|]; [|done].
  by destruct (_ && _).
Qed.

Lemma updatePeerStates_dom (w : World Env) :
  dom (peers (updatePeerStates w).2) = dom (peers w).
Proof.
  apply set_eq. intros address. rewrite !elem_of_dom.
  destruct (peers w !! address) as [peer|] eqn:Hp.
  - destruct (updatePeerStates_flap _ _ _ Hp) as (peer' & -> & _). by split.
  - by rewrite (updatePeerStates_untracked _ _ Hp).
Qed.

(** X11. No operation of the registry ever drops a peer: [AddPeer] adds
    its address to the tracked ones, and polling, withdrawing and the
    two lookups leave the set of tracked addresses as it is. None of
    them touches the ledger. *)
Theorem X11_the_tracked_set_only_grows (o : op) (w : World Env) :
  dom (peers (run o w).2)
  = match o with
    | addPeer address _ _ => {[address]} ∪ dom (peers w)
    | _ => dom (peers w)
    end
  ∧ events (run o w).2 = events w.
Proof.
  destruct o as [a asn port| |a|a|]; unfold run; run_M.
  - pose proof (AddPeer_unfold a asn port w) as Hrun.
    destruct (AddPeer a asn port w) as [err w']. injection Hrun as _ ->.
    cbn. by rewrite dom_insert_L.
  - split; [apply updatePeerStates_dom|].
    rewrite updatePeerStates_unfold. apply range_events.
  - pose proof (WithdrawAllPrefixes_unfold a w) as Hrun.
    destruct (WithdrawAllPrefixes a w) as [err w']. cbn.
    destruct (peers w !! a) as [p|]; [|by injection Hrun as _ ->].
    destruct (server_ListPath (env w)) as [[stream|err'] e];
      injection Hrun as _ ->; [|done].
    cbn. by rewrite dom_alter_L.
  - pose proof (GetPeer_world a w) as Hrun.
    destruct (GetPeer a w) as [r w']. cbn in *. by subst w'.
  - done.
Qed.

(** The entry of a tracked peer after a poll: as it was, or as the
    answer of the session engine makes it. *)
Lemma updatePeerStates_polled address peer (w : World Env) :
  peers w !! address = Some peer →
  peers (updatePeerStates w).2 !! address = Some peer
  ∨ ∃ resp now,
      peers (updatePeerStates w).2 !! address = Some (polled resp now peer).
Proof.
  intros Hp.
  destruct (updatePeerStates_turn _ _ _ Hp)
    as (before & after & _ & _ & _ & Hw0 & ->).
  rewrite (updatePeerState_same _ _ _ Hw0).
  destruct (server_GetPeer address _) as [[resp|err] e]; [right|by left].
  by eexists _, _.
Qed.

Lemma polled_labelled resp now peer : labelled (polled resp now peer).
Proof.
  unfold labelled, polled.
  destruct (api.SessionState_ resp); cbn;
    destruct (Established peer); cbn; split; done.
Qed.

Lemma run_labelled o (w : World Env) :
  (∀ address peer, peers w !! address = Some peer → labelled peer) →
  ∀ address peer, peers (run o w).2 !! address = Some peer → labelled peer.
Proof.
  intros Hw address peer'. destruct o as [a asn port| |a|a|]; unfold run; run_M.
  - pose proof (AddPeer_unfold a asn port w) as Hrun.
    destruct (AddPeer a asn port w) as [err w']. injection Hrun as _ ->. cbn.
    destruct (decide (address = a)) as [->|Hne].
    + rewrite lookup_insert_eq. by intros [= <-].
    + rewrite lookup_insert_ne by done. apply Hw.
  - destruct (peers w !! address) as [peer|] eqn:Hp.
    + destruct (updatePeerStates_polled _ _ _ Hp) as [->|(resp & now & ->)].
      * intros [= <-]. by apply (Hw _ _ Hp).
      * intros [= <-]. apply polled_labelled.
    + by rewrite (updatePeerStates_untracked _ _ Hp).
  - pose proof (WithdrawAllPrefixes_unfold a w) as Hrun.
    destruct (WithdrawAllPrefixes a w) as [err w']. cbn.
    destruct (peers w !! a) as [p|] eqn:Hpa; [|injection Hrun as _ ->; apply Hw].
    destruct (server_ListPath (env w)) as [[stream|err'] e];
      injection Hrun as _ ->; [|apply Hw].
    cbn. destruct (decide (address = a)) as [->|Hne].
    + rewrite lookup_alter_eq, Hpa. intros [= <-]. by apply (Hw _ _ Hpa).
    + rewrite lookup_alter_ne by done. apply Hw.
  - pose proof (GetPeer_world a w) as Hrun.
    destruct (GetPeer a w) as [r w']. cbn in *. subst w'. apply Hw.
  - apply Hw.
Qed.

(** X12. In every world the registry can reach, a tracked peer is held
    as established exactly when its state label is "Established". *)
Theorem X12_label_agrees_with_established_flag
    (w : World Env) (address : string) (peer : PeerState) :
  reachable w →
  peers w !! address = Some peer →
  (Established peer = true ↔ State peer = "Established").
Proof.
  intros Hw. revert address peer. change (∀ address peer,
    peers w !! address = Some peer → labelled peer).
  induction Hw as [w Hinit|o w _ IH].
  - intros address peer. rewrite Hinit. by rewrite lookup_empty.
  - by apply run_labelled.
Qed.

End RegistryMore.

(** X12 on a run: the peer that flapped once is held as not established,
    under the label "IDLE". *)
Lemma X12_label_witness :
  bgp.Established (Sim.peer "10.0.0.1" 1 Sim.noon false) = true
  ↔ bgp.State (Sim.peer "10.0.0.1" 1 Sim.noon false) = "Established".
Proof.
  apply (X12_label_agrees_with_established_flag Sim.flapped_once "10.0.0.1").
  - exact flapped_once_reachable.
  - vm_compute. reflexivity.
Defined.

(** ** Start-up: the configured peers *)

Section InitializeFacts.
Import bgp Monitor Initialize.
Context {Env : Type} {ext : Externals Env}.

(** The port [Initialize] passes on for a configured peer. *)
Lemma addConfiguredPeer_unfold (peer : BGPPeer) (w : World Env) :
  addConfiguredPeer peer w
  = (tt,
     mkWorld
       (server_AddPeer (Initialize.Address peer) (Initialize.ASN peer)
          (if (Port peer =? 0)%N then 179%N else Port peer) (env w)).2
       (<[Initialize.Address peer :=
            fresh_peer (Initialize.Address peer) (Initialize.ASN peer)]> (peers w))
       (events w)).
Proof.
  unfold addConfiguredPeer. run_M. rewrite AddPeer_unfold.
  by destruct (server_AddPeer _ _ _ (env w)) as [[err|] e].
Qed.

Lemma addConfiguredPeers_untouched configured : ∀ (w : World Env) address,
  address ∉ Initialize.Address <$> configured →
  peers (addConfiguredPeers configured w).2 !! address = peers w !! address.
Proof.
  unfold addConfiguredPeers.
  induction configured as [|peer configured IH]; intros w address Hnotin; [done|].
  cbn [fmap list_fmap] in Hnotin. apply not_elem_of_cons in Hnotin as [Hne Hnotin].
  rewrite for_range_cons, IH, addConfiguredPeer_unfold by done.
  cbn. by rewrite lookup_insert_ne.
Qed.

(** An address that is configured has a last entry. *)
Lemma last_entry (configured : list BGPPeer) address :
  address ∈ Initialize.Address <$> configured →
  ∃ before entry after,
    configured = before ++ entry :: after
    ∧ Initialize.Address entry = address
    ∧ (address ∉ Initialize.Address <$> after).
Proof.
  induction configured as [|first configured IH]; intros Hin.
  { by apply elem_of_nil in Hin. }
  destruct (decide (address ∈ Initialize.Address <$> configured)) as [Hlater|Hnone].
  - destruct (IH Hlater) as (before & entry & after & -> & Hsame & Hafter).
    by exists (first :: before), entry, after.
  - cbn [fmap list_fmap] in Hin. apply elem_of_cons in Hin as [->|Hin]; [|done].
    by exists [], first, configured.
Qed.

(** X13. The start-up loop tracks every configured peer, in state "Idle"
    with the ASN of the last configuration entry of its address (an
    entry overwrites the earlier entries of the same address), whether
    or not the session engine accepts it: its errors are only warnings.
    The session engine is asked once per entry, in order, with port 179
    where the entry gives port 0. Addresses that are not configured and
    the ledger are left as they are. *)
Theorem X13_configured_peers_are_tracked
    (configured : list BGPPeer) (w : World Env) :
  let w' := (addConfiguredPeers configured w).2 in
  (∀ before entry after,
     configured = before ++ entry :: after →
     Initialize.Address entry ∉ Initialize.Address <$> after →
     peers w' !! Initialize.Address entry
     = Some {| bgp.Address := Initialize.Address entry;
               bgp.ASN := Initialize.ASN entry; State := "Idle";
               PrefixCount := 0; FlapCount := 0;
               LastFlapTime := Go.zeroTime; Established := false |})
  ∧ (∀ peer,
       peer ∈ configured →
       ∃ before entry after,
         configured = before ++ entry :: after
         ∧ Initialize.Address entry = Initialize.Address peer
         ∧ (Initialize.Address entry ∉ Initialize.Address <$> after)
         ∧ peers w' !! Initialize.Address peer
           = Some (fresh_peer (Initialize.Address peer) (Initialize.ASN entry)))
  ∧ (∀ address,
       address ∉ Initialize.Address <$> configured →
       peers w' !! address = peers w !! address)
  ∧ events w' = events w
  ∧ env w'
    = foldl (λ e peer,
               (server_AddPeer (Initialize.Address peer) (Initialize.ASN peer)
                  (if (Port peer =? 0)%N then 179%N else Port peer) e).2)
            (env w) configured.
Proof.
  intros w'. subst w'.
  assert (Hlast : ∀ before entry after,
    configured = before ++ entry :: after →
    Initialize.Address entry ∉ Initialize.Address <$> after →
    peers (addConfiguredPeers configured w).2 !! Initialize.Address entry
    = Some (fresh_peer (Initialize.Address entry) (Initialize.ASN entry))).
  { intros before entry after -> Hafter. unfold addConfiguredPeers.
    rewrite for_range_app, for_range_cons.
    pose proof (addConfiguredPeers_untouched after
      (addConfiguredPeer entry (for_range before addConfiguredPeer w).2).2
      _ Hafter) as Hkeep.
    unfold addConfiguredPeers in Hkeep. rewrite Hkeep.
    rewrite addConfiguredPeer_unfold. cbn. by rewrite lookup_insert_eq. }
  split; [exact Hlast|]. split; [|split; [|split]].
  - intros peer Hin.
    destruct (last_entry configured (Initialize.Address peer))
      as (before & entry & after & Heq & Hsame & Hafter).
    { apply list_elem_of_fmap. by exists peer. }
    exists before, entry, after. split; [done|]. split; [done|].
    split; [by rewrite Hsame|].
    rewrite <- Hsame. apply (Hlast before entry after); [done|].
    by rewrite Hsame.
  - apply addConfiguredPeers_untouched.
  - clear Hlast. unfold addConfiguredPeers. revert w.
    induction configured as [|peer configured IH]; intros w; [done|].
    by rewrite for_range_cons, IH, addConfiguredPeer_unfold.
  - clear Hlast. unfold addConfiguredPeers. revert w.
    induction configured as [|peer configured IH]; intros w; [done|].
    by rewrite for_range_cons, IH, addConfiguredPeer_unfold.
Qed.

(** Two entries for one address: the second one is tracked. *)
Lemma X13_last_entry_example (w : World Env) :
  let first := {| Initialize.Address := "10.0.0.1"; Initialize.ASN := 65001;
                  Port := 0 |} in
  let second := {| Initialize.Address := "10.0.0.1"; Initialize.ASN := 65002;
                   Port := 1179 |} in
  bgp.ASN <$> peers (addConfiguredPeers [first; second] w).2 !! "10.0.0.1"
  = Some 65002%N.
Proof.
  intros first second. unfold addConfiguredPeers.
  rewrite !for_range_cons, !addConfiguredPeer_unfold. cbn.
  by rewrite lookup_insert_eq.
Qed.

End InitializeFacts.

(** ** The engine: reading the ledger, and what a remediation leaves *)

Section EngineMore.
Import auto Engine.
Context {Env : Type} {ext : Externals Env}.

(** X14. [GetEvents] changes nothing and returns the most recent events,
    oldest first: a suffix of the ledger, the whole ledger when the limit
    is zero, negative or more than the ledger holds, and exactly [limit]
    events otherwise. *)
Theorem X14_GetEvents_returns_the_most_recent (limit : Z) (w : World Env) :
  (GetEvents limit w).2 = w
  ∧ (GetEvents limit w).1 `suffix_of` events w
  ∧ (limit ≤ 0 ∨ Z.of_nat (length (events w)) < limit →
     (GetEvents limit w).1 = events w)
  ∧ (0 < limit ≤ Z.of_nat (length (events w)) →
     Z.of_nat (length (GetEvents limit w).1) = limit).
Proof.
  unfold GetEvents. cbn [fst snd]. split; [done|]. split; [|split].
  - eexists. symmetry. apply take_drop.
  - intros Hall.
    assert ((limit <=? 0) || (Z.of_nat (length (events w)) <? limit) = true) as ->.
    { apply orb_true_iff. rewrite Z.leb_le, Z.ltb_lt. done. }
    by rewrite Z.sub_diag.
  - intros Hlimit.
    assert ((limit <=? 0) || (Z.of_nat (length (events w)) <? limit) = false) as ->.
    { apply orb_false_iff. rewrite Z.leb_gt, Z.ltb_ge. lia. }
    rewrite length_drop. lia.
Qed.

(** What [record] keeps of the ledger, with the new event behind it. *)
Lemma record_snoc event (l : list RemediationEvent) :
  ∃ kept, record event l = kept ++ [event] ∧ kept `suffix_of` l.
Proof.
  rewrite record_drop.
  exists (drop (length (l ++ [event]) - 1000) l). split.
  - apply drop_app_le. rewrite length_app. cbn [length]. lia.
  - eexists. symmetry. apply take_drop.
Qed.

(** X15. The event just recorded is the last one of every non-empty
    reading of the ledger: after [recordEvent], [GetEvents] with a
    positive limit returns a list that ends with that event, and with
    limit 1 that event alone. *)
Theorem X15_the_recorded_event_is_read_last
    (event : RemediationEvent) (limit : Z) (w : World Env) :
  0 < limit →
  last (GetEvents limit (recordEvent event w).2).1 = Some event
  ∧ (GetEvents 1 (recordEvent event w).2).1 = [event].
Proof.
  intros Hlimit. unfold recordEvent, set_events, GetEvents. cbn [fst snd events].
  destruct (record_snoc event (events w)) as (kept & -> & _).
  rewrite length_app. cbn [length].
  split.
  - destruct ((limit <=? 0) || _) eqn:Hall.
    + rewrite Z.sub_diag. change (Z.to_nat 0) with 0%nat.
      by rewrite drop_0, last_snoc.
    + apply orb_false_iff in Hall as [_ Hle%Z.ltb_ge].
      rewrite drop_app_le by lia. by rewrite last_snoc.
  - destruct ((1 <=? 0) || _) eqn:Hall.
    + apply orb_true_iff in Hall as [?|Hlt%Z.ltb_lt]; [done|].
      assert (kept = []) as -> by (destruct kept; [done|cbn in Hlt; lia]).
      done.
    + replace (Z.to_nat (Z.of_nat (length kept + 1) - 1)) with (length kept) by lia.
      by rewrite drop_app_length.
Qed.

Lemma count_matching_iter reason (l : list RemediationEvent) : ∀ count,
  foldl (λ count event,
           if bool_decide (Reason event = reason) && Success event
           then Go.int64_inc count else count) count l
  = Nat.iter (length (filter (λ e, Reason e = reason ∧ Success e = true) l))
             Go.int64_inc count.
Proof.
  induction l as [|e l IH]; intros count; [done|].
  cbn [foldl]. rewrite IH.
  destruct (bool_decide (Reason e = reason) && Success e) eqn:Hm.
  - apply andb_true_iff in Hm as [Hr%bool_decide_eq_true Hs].
    rewrite filter_cons_True by done. cbn [length]. by rewrite Nat.iter_succ_r.
  - rewrite filter_cons_False; [done|]. intros [Hr Hs].
    by rewrite Hs, (bool_decide_eq_true_2 _ Hr) in Hm.
Qed.

(** X16. On a ledger within its bound, [GetRemediationCount] changes
    nothing and returns the number of events in the ledger that have the
    given reason and were successful; failed events are not counted, and
    the count is never more than 1000. *)
Theorem X16_GetRemediationCount_counts_successes
    (reason : string) (w : World Env) :
  (length (events w) ≤ 1000)%nat →
  GetRemediationCount reason w
  = (Z.of_nat (length (filter (λ e, Reason e = reason ∧ Success e = true)
                              (events w))), w)
  ∧ 0 ≤ (GetRemediationCount reason w).1 ≤ 1000.
Proof.
  intros Hbound.
  pose proof (length_filter (λ e, Reason e = reason ∧ Success e = true) (events w))
    as Hle.
  assert (Hcount : count_matching reason (events w)
    = Z.of_nat (length (filter (λ e, Reason e = reason ∧ Success e = true)
                               (events w)))).
  { unfold count_matching. rewrite count_matching_iter.
    rewrite iter_int64_inc_small; unfold Go.MinInt64, Go.MaxInt64; lia. }
  unfold GetRemediationCount. cbn [fst]. rewrite Hcount. split; [done|lia].
Qed.

End EngineMore.

(** X15 on a run: an event recorded on an empty ledger is what a reading
    of up to 10 events returns last. *)
Lemma X15_recorded_event_witness :
  last (Engine.GetEvents 10
          (Engine.recordEvent (Sim.event 5) Sim.flapping_world).2).1
  = Some (Sim.event 5)
  ∧ (Engine.GetEvents 1
       (Engine.recordEvent (Sim.event 5) Sim.flapping_world).2).1
    = [Sim.event 5].
Proof. apply X15_the_recorded_event_is_read_last. lia. Defined.

(** X16 on a run: of two events with reason "test", the successful one
    is counted. *)
Lemma X16_count_witness :
  let w := mkWorld (Sim.mkEnv 0 [] [] false false) ∅
             [Sim.event 1; auto.setSuccess false (Sim.event 2)] in
  Engine.GetRemediationCount "test" w
  = (Z.of_nat (length (filter (λ e, auto.Reason e = "test" ∧ auto.Success e = true)
                              (events w))), w)
  ∧ 0 ≤ (Engine.GetRemediationCount "test" w).1 ≤ 1000.
Proof.
  intros w. apply X16_GetRemediationCount_counts_successes. cbn. lia.
Defined.

Section RemediationMore.
Import auto Engine.
Context {Env : Type} {ext : Externals Env}.

Lemma for_range_keeps {A} (P : World Env → Prop) (l : list A)
    (body : A → M Env unit) :
  (∀ x w, P w → P (body x w).2) →
  ∀ w, P w → P (for_range l body w).2.
Proof.
  intros Hbody. induction l as [|x l IH]; intros w Hw; [done|].
  rewrite for_range_cons. by apply IH, Hbody.
Qed.

(** The peers after a withdrawal: as before, or with the flap count of
    the address reset. *)
Lemma WithdrawAllPrefixes_peers address (w : World Env) :
  peers (Monitor.WithdrawAllPrefixes address w).2
  = if Go.is_nil (Monitor.WithdrawAllPrefixes address w).1
    then alter (bgp.setFlapCount 0) address (peers w)
    else peers w.
Proof.
  rewrite WithdrawAllPrefixes_unfold.
  destruct (peers w !! address); [|done].
  by destruct (server_ListPath (env w)) as [[stream|err] e].
Qed.

Lemma remediateFlap_reset_only ps address (w : World Env) :
  reset_only ps w → reset_only ps (remediateFlap address w).2.
Proof.
  intros Hw a. rewrite remediateFlap_unfold. cbn [snd peers].
  rewrite WithdrawAllPrefixes_peers. cbn [after_clock peers].
  destruct (Go.is_nil _); [|apply Hw].
  destruct (decide (a = address)) as [->|Hne].
  - rewrite lookup_alter_eq. right.
    destruct (Hw address) as [->| ->]; [done|].
    by destruct (ps !! address).
  - rewrite lookup_alter_ne by done. apply Hw.
Qed.

(** X17. An evaluation cycle changes nothing of the registry but flap
    counts: after it every address is tracked exactly when it was
    before, and its entry is the one before or the one before with the
    flap count set to zero. *)
Theorem X17_a_cycle_only_resets_flap_counts
    (cfg : config.AutoConfig) (w : World Env) (address : string) :
  peers (checkAndRemediate cfg w).2 !! address = peers w !! address
  ∨ peers (checkAndRemediate cfg w).2 !! address
    = bgp.setFlapCount 0 <$> peers w !! address.
Proof.
  rewrite checkAndRemediate_unfold.
  apply (for_range_keeps (reset_only (peers w))).
  - intros peer w' Hw'. unfold checkPeer.
    destruct (flapping cfg _ _ peer); [|done].
    by apply remediateFlap_reset_only.
  - intros a. by left.
Qed.

(** X18. With a threshold that is not negative, a flap remediation that
    succeeded takes the peer out of the flapping ones: the event it
    records is the last of the ledger, and when it is successful the
    flap count of the peer is zero and no evaluation, at whatever time
    and with whatever window, finds the peer flapping. When it is not
    successful the peers are as before, so the next cycle tries again. *)
Theorem X18_a_successful_remediation_ends_the_flapping
    (cfg : config.AutoConfig) (address : string) (peer : bgp.PeerState)
    (w : World Env) :
  0 ≤ config.FlapThreshold cfg →
  peers w !! address = Some peer →
  let w' := (remediateFlap address w).2 in
  ∃ event,
    last (events w') = Some event
    ∧ Type_ event = "bgp_flap" ∧ Target event = address
    ∧ (Success event = true →
       ∃ peer',
         peers w' !! address = Some peer'
         ∧ bgp.FlapCount peer' = 0
         ∧ ∀ now window, flapping cfg now window peer' = false)
    ∧ (Success event = false → peers w' = peers w).
Proof.
  intros Hthreshold Hp w'. subst w'. rewrite remediateFlap_unfold. cbn [snd events peers].
  destruct (record_snoc
              (flap_event (time_Now (env w)).1 address
                 (Go.is_nil (Monitor.WithdrawAllPrefixes address (after_clock w)).1))
              (events w)) as (kept & -> & _).
  eexists. split; [apply last_snoc|]. split; [done|]. split; [done|].
  rewrite WithdrawAllPrefixes_peers. cbn [Success flap_event after_clock peers].
  split.
  - intros ->. rewrite lookup_alter_eq, Hp. eexists. split; [done|]. split; [done|].
    intros now window. unfold flapping. cbn.
    destruct (Z.ltb_spec (config.FlapThreshold cfg) 0); [lia|done].
  - by intros ->.
Qed.

(** X19. Manual remediation of a peer that is not tracked fails: the
    error names the peer twice, as the peer that could not be remediated
    and as the peer that was not found; one failed manual event is
    recorded, the RPKI path does not run even when a prefix is given, and
    the peers are untouched. With neither peer nor prefix the call does
    nothing, yet records a successful manual event and returns no
    error. In both cases the event is the last of the ledger, behind the
    events of before, of which the oldest leaves when there were 1000. *)
Theorem X19_manual_remediation_at_the_edges
    (peer prefix reason : string) (w : World Env) :
  (peer ≠ "" → peers w !! peer = None →
   RemediateManual peer prefix reason w
   = (Some ("failed to remediate peer " +:+ peer +:+ ": peer " +:+ peer
            +:+ " not found"),
      mkWorld (time_Now (env w)).2 (peers w)
        (record (manual_event (time_Now (env w)).1 peer reason false) (events w))))
  ∧ RemediateManual "" "" reason w
    = (None,
       mkWorld (time_Now (env w)).2 (peers w)
         (record (manual_event (time_Now (env w)).1 "" reason true) (events w)))
  ∧ (peer ≠ "" → peers w !! peer = None →
     let failed := {| Timestamp := (time_Now (env w)).1; Type_ := "manual";
                      Target := peer; Reason := reason;
                      Action := "manual_remediation"; Success := false |} in
     events (RemediateManual peer prefix reason w).2
     = drop (length (events w ++ [failed]) - 1000) (events w ++ [failed])
     ∧ last (events (RemediateManual peer prefix reason w).2) = Some failed
     ∧ ((length (events w) < 1000)%nat →
        events (RemediateManual peer prefix reason w).2 = events w ++ [failed]))
  ∧ (let idle := {| Timestamp := (time_Now (env w)).1; Type_ := "manual";
                    Target := ""; Reason := reason;
                    Action := "manual_remediation"; Success := true |} in
     events (RemediateManual "" "" reason w).2
     = drop (length (events w ++ [idle]) - 1000) (events w ++ [idle])
     ∧ last (events (RemediateManual "" "" reason w).2) = Some idle
     ∧ ((length (events w) < 1000)%nat →
        events (RemediateManual "" "" reason w).2 = events w ++ [idle])).
Proof.
  assert (Hmissing : peer ≠ "" → peers w !! peer = None →
    RemediateManual peer prefix reason w
    = (Some ("failed to remediate peer " +:+ peer +:+ ": peer " +:+ peer
             +:+ " not found"),
       mkWorld (time_Now (env w)).2 (peers w)
         (record (manual_event (time_Now (env w)).1 peer reason false)
            (events w)))).
  { intros Hpeer Hp. unfold RemediateManual, recordEvent. run_M.
    destruct (time_Now (env w)) as [now e]. cbn [fst snd].
    rewrite (bool_decide_eq_true_2 _ Hpeer), WithdrawAllPrefixes_unfold.
    cbn [peers]. by rewrite Hp. }
  assert (Hidle : RemediateManual "" "" reason w
    = (None,
       mkWorld (time_Now (env w)).2 (peers w)
         (record (manual_event (time_Now (env w)).1 "" reason true)
            (events w)))).
  { unfold RemediateManual, recordEvent. run_M.
    by destruct (time_Now (env w)) as [now e]. }
  split; [exact Hmissing|]. split; [exact Hidle|]. split.
  - intros Hpeer Hp failed. rewrite (Hmissing Hpeer Hp). cbn [snd events].
    split; [apply record_drop|]. split; [apply record_last|apply record_room].
  - intros idle. rewrite Hidle. cbn [snd events].
    split; [apply record_drop|]. split; [apply record_last|apply record_room].
Qed.

End RemediationMore.

(** X19 on a run: with no peer tracked and an empty ledger, the manual
    remediation of 10.0.0.9 fails with the error below and leaves the one
    failed event; the call with neither peer nor prefix returns no error
    and leaves one successful event. *)
Lemma X19_manual_remediation_witness :
  let w := mkWorld (Sim.mkEnv Sim.noon [] [] false false) ∅ [] in
  ((Engine.RemediateManual "10.0.0.9" "203.0.113.0/24" "drill" w).1
   = Some "failed to remediate peer 10.0.0.9: peer 10.0.0.9 not found"
   ∧ events (Engine.RemediateManual "10.0.0.9" "203.0.113.0/24" "drill" w).2
     = [{| auto.Timestamp := Sim.noon; auto.Type_ := "manual";
           auto.Target := "10.0.0.9"; auto.Reason := "drill";
           auto.Action := "manual_remediation"; auto.Success := false |}])
  ∧ ((Engine.RemediateManual "" "" "drill" w).1 = None
     ∧ events (Engine.RemediateManual "" "" "drill" w).2
       = [{| auto.Timestamp := Sim.noon; auto.Type_ := "manual";
             auto.Target := ""; auto.Reason := "drill";
             auto.Action := "manual_remediation"; auto.Success := true |}]).
Proof.
  intros w.
  destruct (X19_manual_remediation_at_the_edges
              "10.0.0.9" "203.0.113.0/24" "drill" w)
    as (Hmissing & Hidle & Hfailed & _ & _ & Hroom).
  split.
  - split; [by rewrite Hmissing|].
    destruct Hfailed as (_ & _ & ->); [done|done|reflexivity|cbn; lia].
  - split; [by rewrite Hidle|]. rewrite Hroom; [reflexivity|cbn; lia].
Defined.

(** X18 on a run: the peer of [Sim.flapping_world], remediated with the
    threshold 3. *)
Lemma X18_remediation_witness :
  let w' := (Engine.remediateFlap "10.0.0.1" Sim.flapping_world).2 in
  ∃ event,
    last (events w') = Some event
    ∧ auto.Type_ event = "bgp_flap" ∧ auto.Target event = "10.0.0.1"
    ∧ (auto.Success event = true →
       ∃ peer',
         peers w' !! "10.0.0.1" = Some peer'
         ∧ bgp.FlapCount peer' = 0
         ∧ ∀ now window, Engine.flapping Sim.cfg now window peer' = false)
    ∧ (auto.Success event = false → peers w' = peers Sim.flapping_world).
Proof.
  apply (X18_a_successful_remediation_ends_the_flapping Sim.cfg "10.0.0.1"
           (Sim.peer "10.0.0.1" 4 (Sim.noon - 10 * Go.Second) false)).
  - cbn. lia.
  - vm_compute. reflexivity.
Defined.

(** ** The telemetry logger *)

Section LoggerFacts.
Import telemetry.
Context {Meta : Type} (marshal : Event Meta → string + string).





End LoggerFacts.

(** X20 on a run: the one event logged is received and printed; its
    marshalling fails in a second run, and the error is printed. *)
Lemma X20_logger_example :
  telemetry.printed (foldl (telemetry.run (λ e : telemetry.Event unit,
                                   inl (telemetry.Message e)))
             telemetry.NewLogger
             [telemetry.Log 0 "bgp_flap" "bgp" "peer down" (); telemetry.Process])
  = ["Event: peer down"]
  ∧ telemetry.printed (foldl (telemetry.run (λ e : telemetry.Event unit,
                                     inr "unsupported type"))
               telemetry.NewLogger
               [telemetry.Log 0 "bgp_flap" "bgp" "peer down" (); telemetry.Process])
    = ["Error marshaling event: unsupported type"].
Proof. split; reflexivity. Qed.
